(** * position-rank: tokenizer.py

    A shallow embedding of [tokenizer.py] (the English tokenizer built on
    Stanford CoreNLP and the Japanese one built on SudachiPy) and the
    properties of its phrase extraction.

    Python values are modelled as follows.
    - [str] is a sequence of Unicode code points: [list N].  Indexing a
      [str] therefore counts code points, as Python 3 does.
    - a tuple [(text, tag)] is a pair, a list is a [list].
    - [re.finditer] is modelled by a small greedy backtracking matcher over
      parsed patterns, searched leftmost first.
    - exceptions are an error result.
    - the external taggers are fields of the instance records; their calls
      are taken to return (a failure inside them is not the source's). *)

From Stdlib Require Import String Ascii.
From Stdlib Require Import List NArith Arith Bool Lia Sorted.
Import ListNotations.

(* ================================================================= *)
(** ** Python built-ins used by the source *)

Module Py.

(** A Python 3 [str]. *)
Definition str : Type := list N.

(** An ASCII literal as a [str]. *)
Definition lit (x : string) : str :=
  List.map N_of_ascii (list_ascii_of_string x).

(** [a == b] on [str]. *)
Fixpoint str_eqb (a b : str) : bool :=
  match a, b with
  | [], [] => true
  | x :: a', y :: b' => N.eqb x y && str_eqb a' b'
  | _, _ => false
  end.

(** [x in xs] for a list (or a set literal) of [str]. *)
Definition contains (xs : list str) (x : str) : bool :=
  existsb (str_eqb x) xs.

(** [sep.join(parts)]. *)
Fixpoint join (sep : str) (parts : list str) : str :=
  match parts with
  | [] => []
  | [p] => p
  | p :: rest => p ++ sep ++ join sep rest
  end.

(** [xs[lo:hi]] for non-negative bounds; both are clamped to [len(xs)]. *)
Definition slice {A : Type} (xs : list A) (lo hi : nat) : list A :=
  skipn lo (firstn hi xs).

(** Exceptions the source can raise by itself. *)
Inductive exn : Type :=
| AttributeError
| IndexError.

Definition result (A : Type) : Type := (exn + A)%type.

Definition ret {A : Type} (a : A) : result A := inr a.
Definition raise {A : Type} (e : exn) : result A := inl e.
Definition bind {A B : Type} (c : result A) (f : A -> result B) : result B :=
  match c with
  | inl e => inl e
  | inr a => f a
  end.

(** [xs[0]]. *)
Definition index0 {A : Type} (xs : list A) : result A :=
  match xs with
  | [] => raise IndexError
  | x :: _ => ret x
  end.

End Py.

Notation "'try' x <- c ;; k" := (Py.bind c (fun x => k))
  (at level 10, x name, c at level 100, k at level 200).

Import Py.

(* ================================================================= *)
(** ** The part of [re] the source uses *)

Module Re.

(** Parsed patterns: a literal character, concatenation, [r*], [r+]. *)
Inductive regex : Type :=
| Chr (c : N)
| Cat (r1 r2 : regex)
| Star (r : regex)
| Plus (r : regex).

(** A match object: [m.start()] and [m.end()]. *)
Record Match : Type := mkMatch { start : nat; end_ : nat }.

(** Greedy repetition: take one more [body] when it makes progress, and
    only when everything after that fails fall back to the continuation.
    [fuel] bounds the number of repetitions. *)
Definition repeat_greedy
    (body : nat -> (nat -> option nat) -> option nat)
    (k : nat -> option nat) : nat -> nat -> option nat :=
  fix loop (fuel i : nat) {struct fuel} : option nat :=
    match fuel with
    | O => k i
    | S fuel' =>
        match body i (fun j => if i <? j then loop fuel' j else None) with
        | Some e => Some e
        | None => k i
        end
    end.

(** [run r s i k]: match [r] against [s] from position [i]; on success
    hand the position reached to [k], and backtrack into [r] when [k]
    fails.  The result is the end of the whole match. *)
Fixpoint run (r : regex) (s : str) (i : nat) (k : nat -> option nat)
  {struct r} : option nat :=
  match r with
  | Chr c =>
      match nth_error s i with
      | Some x => if N.eqb x c then k (S i) else None
      | None => None
      end
  | Cat r1 r2 => run r1 s i (fun j => run r2 s j k)
  | Star r1 => repeat_greedy (run r1 s) k (S (length s - i)) i
  | Plus r1 =>
      run r1 s i (fun j => repeat_greedy (run r1 s) k (S (length s - j)) j)
  end.

(** [pattern.match(s, i)]: the end of the match anchored at [i]. *)
Definition match_at (r : regex) (s : str) (i : nat) : option nat :=
  run r s i (fun j => Some j).

(** [pattern.search(s, pos)]: the leftmost position from [pos] on where
    the pattern matches; [n] is the number of positions after [pos] that
    are still to be tried. *)
Fixpoint search (r : regex) (s : str) (pos n : nat) : option Match :=
  match match_at r s pos with
  | Some e => Some (mkMatch pos e)
  | None =>
      match n with
      | O => None
      | S n' => search r s (S pos) n'
      end
  end.

(** The loop of [re.finditer]: search from [pos], yield, go on from the
    end of the match.  After an empty match the scan moves one position
    further; the patterns of the source match no empty string, so this case
    does not arise for them. *)
Fixpoint finditer_from (fuel : nat) (r : regex) (s : str) (pos : nat)
  : list Match :=
  match fuel with
  | O => []
  | S fuel' =>
      if length s <? pos then []
      else
        match search r s pos (length s - pos) with
        | None => []
        | Some mt =>
            mt :: finditer_from fuel' r s
                    (if start mt <? end_ mt then end_ mt else S (end_ mt))
        end
  end.

(** [re.finditer(pattern, s)], as the list of its matches. *)
Definition finditer (r : regex) (s : str) : list Match :=
  finditer_from (S (S (length s))) r s 0.

End Re.

Import Re.

(** The code point of an ASCII character. *)
Definition chr (a : ascii) : N := N_of_ascii a.

(* ================================================================= *)
(** ** The external libraries, by their interface *)

(** [stanfordcorenlp.StanfordCoreNLP]: [pos_tag(sentence)] returns the
    list of [(word, tag)] tuples of the sentence. *)
Module CoreNLP.
Record StanfordCoreNLP : Type :=
  { pos_tag : str -> list (str * str) }.
End CoreNLP.

(** [sudachipy]: split modes, morphemes, and the tokenizer object made by
    [dictionary.Dictionary().create()]. *)
Module SplitMode.
Inductive t : Type := A | B | C.
End SplitMode.

Module Sudachi.
Record Morpheme : Type :=
  { surface : str; part_of_speech : list str }.
Record Tokenizer : Type :=
  { tokenize : str -> SplitMode.t -> list Morpheme }.
End Sudachi.

(* ================================================================= *)
(** ** class StanfordCoreNlpTokenizer *)

Module StanfordCoreNlpTokenizer.

(** The instance: [self.tokenizer]. *)
Record t : Type := { tokenizer : CoreNLP.StanfordCoreNLP }.

(** [server] is the object [StanfordCoreNLP(url_or_path, port = port)]
    returned. *)
Definition __init__ (server : CoreNLP.StanfordCoreNLP) : t :=
  {| tokenizer := server |}.

Definition _anonymize_pos (pos : str) : str :=
  if str_eqb pos (lit "JJ") || str_eqb pos (lit "JJR")
     || str_eqb pos (lit "JJS")
  then lit "J"
  else if str_eqb pos (lit "NN") || str_eqb pos (lit "NNS")
          || str_eqb pos (lit "NNP") || str_eqb pos (lit "NNPS")
  then lit "N"
  else lit "O".

(** The default value of [pos_filter]. *)
Definition default_pos_filter : list str :=
  [lit "JJ"; lit "JJR"; lit "JJS"; lit "NN"; lit "NNS"; lit "NNP";
   lit "NNPS"].

(** The pattern [r"J*N+"]. *)
Definition pattern : regex :=
  Cat (Star (Chr (chr "J"))) (Plus (Chr (chr "N"))).

Definition tokenize (self : t) (sentence : str) (pos_filter : list str)
  : list str * list str :=
  let tokens := CoreNLP.pos_tag (tokenizer self) sentence in
  let pos_tags := map (fun token => _anonymize_pos (snd token)) tokens in
  let iterator := finditer pattern (join [] pos_tags) in
  let phrases :=
    filter (fun x => length x <=? 3)
      (map (fun mt => map fst (slice tokens (start mt) (end_ mt)))
         iterator) in
  let phrases := map (join (lit "_")) phrases in
  (map fst (filter (fun token => contains pos_filter (snd token)) tokens),
   phrases).

End StanfordCoreNlpTokenizer.

(* ================================================================= *)
(** ** class SudachiTokenizer *)

Module SudachiTokenizer.

(** The instance: [self.tokenizer], and [self.sudachi_mode] when the
    attribute has been set. *)
Record t : Type :=
  { tokenizer : Sudachi.Tokenizer;
    sudachi_mode : option SplitMode.t }.

(** [created] is the object [dictionary.Dictionary().create()] returned.
    The chain of [if]/[elif] has no [else]: for any other mode string no
    assignment runs and the instance has no [sudachi_mode] attribute. *)
Definition __init__ (created : Sudachi.Tokenizer) (sudachi_mode : str) : t :=
  if str_eqb sudachi_mode (lit "A") then
    {| tokenizer := created; sudachi_mode := Some SplitMode.A |}
  else if str_eqb sudachi_mode (lit "B") then
    {| tokenizer := created; sudachi_mode := Some SplitMode.B |}
  else if str_eqb sudachi_mode (lit "C") then
    {| tokenizer := created; sudachi_mode := Some SplitMode.C |}
  else
    {| tokenizer := created; sudachi_mode := None |}.

(** Reading [self.sudachi_mode]. *)
Definition get_sudachi_mode (self : t) : result SplitMode.t :=
  match sudachi_mode self with
  | Some mode => ret mode
  | None => raise AttributeError
  end.

(** 形容詞 (adjective) and 名詞 (noun), the tags; 形, 名 and 他, the letters
    they are replaced by. *)
Definition keiyoushi : str := [0x5f62; 0x5bb9; 0x8a5e]%N.
Definition meishi : str := [0x540d; 0x8a5e]%N.
Definition c_kei : N := 0x5f62%N.
Definition c_mei : N := 0x540d%N.
Definition c_ta : N := 0x4ed6%N.

Definition _anonymize_pos (pos : str) : str :=
  if str_eqb pos keiyoushi then [c_kei]
  else if str_eqb pos meishi then [c_mei]
  else [c_ta].

(** The default value of [pos_filter]. *)
Definition default_pos_filter : list str := [meishi; keiyoushi].

(** The pattern [r"形*名+"]. *)
Definition pattern : regex := Cat (Star (Chr c_kei)) (Plus (Chr c_mei)).

(** The comprehension of lines 108-110: the [(surface, tag)] tuples of the
    morphemes that are neither a sentinel nor empty. *)
Fixpoint morph_tokens (morphs : list Sudachi.Morpheme)
  : result (list (str * str)) :=
  match morphs with
  | [] => ret []
  | morph :: rest =>
      if negb (contains [lit "EOS"; lit "BOS"] (Sudachi.surface morph)
               || str_eqb (Sudachi.surface morph) [])
      then
        try pos <- index0 (Sudachi.part_of_speech morph) ;;
        try tokens <- morph_tokens rest ;;
        ret ((Sudachi.surface morph, pos) :: tokens)
      else morph_tokens rest
  end.

Definition tokenize (self : t) (sentence : str) (pos_filter : list str)
  : result (list str * list str) :=
  try mode <- get_sudachi_mode self ;;
  try tokens <- morph_tokens (Sudachi.tokenize (tokenizer self) sentence mode) ;;
  let pos_tags := map (fun token => _anonymize_pos (snd token)) tokens in
  let iterator := finditer pattern (join [] pos_tags) in
  let phrases :=
    filter (fun x => length x <=? 3)
      (map (fun mt => map fst (slice tokens (start mt) (end_ mt)))
         iterator) in
  let phrases := map (join (lit "_")) phrases in
  ret (map fst (filter (fun token => contains pos_filter (snd token)) tokens),
       phrases).

End SudachiTokenizer.

(* ================================================================= *)
(** ** The phrase extraction, step by step *)

(** The lines that follow the classification are the same in both classes
    up to the pattern (47-50 and 112-115).  They are named here so that the
    theorems can speak of the spans behind the returned phrases. *)

(** [[token[0] for token in tokens[match.start():match.end()]]]. *)
Definition span_texts (tokens : list (str * str)) (mt : Match) : list str :=
  map fst (slice tokens (start mt) (end_ mt)).

(** Lines 47-50 as a function of the pattern, [tokens] and [pos_tags]. *)
Definition extract_phrases (pattern : regex) (tokens : list (str * str))
    (pos_tags : list str) : list str :=
  map (join (lit "_"))
    (filter (fun x => length x <=? 3)
       (map (span_texts tokens) (finditer pattern (join [] pos_tags)))).

(** The matches whose token list passes [len(x) <= 3]: the spans of the
    returned phrases. *)
Definition kept_spans (tokens : list (str * str)) (ms : list Match)
  : list Match :=
  filter (fun mt => length (span_texts tokens mt) <=? 3) ms.

(** [[token[0] for token in tokens if token[1] in pos_filter]]. *)
Definition filter_tokens (tokens : list (str * str)) (pos_filter : list str)
  : list str :=
  map fst (filter (fun token => contains pos_filter (snd token)) tokens).

(* ================================================================= *)
(** ** The words of the specification *)

(** The three roles a tag is collapsed to. *)
Inductive Symbol : Type := Adjective | Noun | Other.

(** The role a character of the collapsed tag string stands for, given the
    letters of the pattern. *)
Definition symbol_of_char (cA cN c : N) : Symbol :=
  if N.eqb c cA then Adjective
  else if N.eqb c cN then Noun
  else Other.

(** The role of a one-letter string returned by [_anonymize_pos]. *)
Definition symbol_of_letter (cA cN : N) (letter : str) : Symbol :=
  match letter with
  | [c] => symbol_of_char cA cN c
  | _ => Other
  end.

Section LeftmostGreedy.

Variable syms : list Symbol.

(** Positions [b, e) have the form (adjectives)*(nouns)+ : adjectives up
    to some [a], then at least one noun. *)
Definition run_form (b e : nat) : Prop :=
  exists a, b <= a /\ a < e /\
    (forall i, b <= i -> i < a -> nth_error syms i = Some Adjective) /\
    (forall i, a <= i -> i < e -> nth_error syms i = Some Noun).

(** The pattern can match at position [p]. *)
Definition can_match (p : nat) : Prop := exists e, run_form p e.

(** [leftmost_greedy pos ms]: [ms] are the matches found from the scan
    position [pos] on.  Each starts at the first position not yet
    consumed where the pattern can match, takes the longest run from
    there, and the scan resumes at its end. *)
Inductive leftmost_greedy : nat -> list Match -> Prop :=
| lg_done : forall pos,
    (forall p, pos <= p -> ~ can_match p) ->
    leftmost_greedy pos []
| lg_next : forall pos b e ms,
    pos <= b ->
    (forall p, pos <= p -> p < b -> ~ can_match p) ->
    run_form b e ->
    (forall e', run_form b e' -> e' <= e) ->
    leftmost_greedy e ms ->
    leftmost_greedy pos (mkMatch b e :: ms).

End LeftmostGreedy.

(** Two spans share a token position. *)
Definition overlap (m1 m2 : Match) : Prop :=
  exists p, start m1 <= p /\ p < end_ m1 /\ start m2 <= p /\ p < end_ m2.

(** [m1] ends before [m2] starts. *)
Definition before (m1 m2 : Match) : Prop := end_ m1 <= start m2.

(** The token filter in the words of the specification: walking the tokens
    in order, the text of a token is kept when its tag is in the allowed
    set and omitted when it is not. *)
Inductive filtered_by (allowed : list str)
  : list (str * str) -> list str -> Prop :=
| fb_nil : filtered_by allowed [] []
| fb_keep : forall text tag tokens out,
    In tag allowed ->
    filtered_by allowed tokens out ->
    filtered_by allowed ((text, tag) :: tokens) (text :: out)
| fb_omit : forall text tag tokens out,
    ~ In tag allowed ->
    filtered_by allowed tokens out ->
    filtered_by allowed ((text, tag) :: tokens) out.

(** *** English *)

Module English.

Definition cJ : N := chr "J".
Definition cN : N := chr "N".

(** The tags of the two tables of the classifier. *)
Definition adjectives : list str := [lit "JJ"; lit "JJR"; lit "JJS"].
Definition nouns : list str :=
  [lit "NN"; lit "NNS"; lit "NNP"; lit "NNPS"].

(** [tokens], as [tokenize] computes them. *)
Definition tokens_of (self : StanfordCoreNlpTokenizer.t) (sentence : str)
  : list (str * str) :=
  CoreNLP.pos_tag (StanfordCoreNlpTokenizer.tokenizer self) sentence.

(** [pos_tags], as [tokenize] computes them. *)
Definition pos_tags_of (tokens : list (str * str)) : list str :=
  map (fun token => StanfordCoreNlpTokenizer._anonymize_pos (snd token))
    tokens.

(** The classified symbol sequence of the tokens. *)
Definition symbols (tokens : list (str * str)) : list Symbol :=
  map (symbol_of_letter cJ cN) (pos_tags_of tokens).

(** The matches [re.finditer] yields for the tokens. *)
Definition matches (tokens : list (str * str)) : list Match :=
  finditer StanfordCoreNlpTokenizer.pattern (join [] (pos_tags_of tokens)).

(** The spans of the phrases [tokenize] returns. *)
Definition phrase_spans (tokens : list (str * str)) : list Match :=
  kept_spans tokens (matches tokens).

(** Tuples written with ASCII literals. *)
Definition tuples (l : list (string * string)) : list (str * str) :=
  map (fun p => (lit (fst p), lit (snd p))) l.

(** A tagger that answers every sentence with the given tuples. *)
Definition tagger (l : list (string * string)) : StanfordCoreNlpTokenizer.t :=
  StanfordCoreNlpTokenizer.__init__
    {| CoreNLP.pos_tag := fun _ => tuples l |}.

(** Sentences of the specification's scenarios, tagged. *)
Definition quick_brown_fox : list (string * string) :=
  [("quick", "JJ"); ("brown", "JJ"); ("fox", "NN"); ("jumps", "VBZ")]%string.
Definition over_long : list (string * string) :=
  [("a", "JJ"); ("b", "JJ"); ("c", "JJ"); ("d", "JJ"); ("e", "NN")]%string.
Definition fox_and_fox : list (string * string) :=
  [("fox", "NN"); ("and", "CC"); ("fox", "NN")]%string.

End English.

(** *** Japanese *)

Module Japanese.

(** [tokens], as [tokenize] computes them. *)
Definition tokens_of (self : SudachiTokenizer.t) (sentence : str)
  : result (list (str * str)) :=
  try mode <- SudachiTokenizer.get_sudachi_mode self ;;
  SudachiTokenizer.morph_tokens
    (Sudachi.tokenize (SudachiTokenizer.tokenizer self) sentence mode).

(** [pos_tags], as [tokenize] computes them. *)
Definition pos_tags_of (tokens : list (str * str)) : list str :=
  map (fun token => SudachiTokenizer._anonymize_pos (snd token)) tokens.

(** The classified symbol sequence of the tokens. *)
Definition symbols (tokens : list (str * str)) : list Symbol :=
  map (symbol_of_letter SudachiTokenizer.c_kei SudachiTokenizer.c_mei)
    (pos_tags_of tokens).

(** The matches [re.finditer] yields for the tokens. *)
Definition matches (tokens : list (str * str)) : list Match :=
  finditer SudachiTokenizer.pattern (join [] (pos_tags_of tokens)).

(** The spans of the phrases [tokenize] returns. *)
Definition phrase_spans (tokens : list (str * str)) : list Match :=
  kept_spans tokens (matches tokens).

(** The tags of the two tables of the classifier. *)
Definition adjectives : list str := [SudachiTokenizer.keiyoushi].
Definition nouns : list str := [SudachiTokenizer.meishi].

(** The test of the comprehension of lines 108-110 on a surface text. *)
Definition is_discarded (text : str) : bool :=
  contains [lit "EOS"; lit "BOS"] text || str_eqb text [].

(** The surface texts the adapter discards. *)
Definition discarded (text : str) : Prop :=
  text = lit "BOS" \/ text = lit "EOS" \/ text = [].

(** An analyzer that answers every sentence with the given morphemes. *)
Definition analyzer (morphs : list Sudachi.Morpheme) : Sudachi.Tokenizer :=
  {| Sudachi.tokenize := fun _ _ => morphs |}.

(** The scenario of the specification: 美しい (形容詞) and 花 (名詞) between
    the two sentinels. *)
Definition utsukushii : str := [0x7f8e; 0x3057; 0x3044]%N.
Definition hana : str := [0x82b1]%N.
Definition beautiful_flower : list Sudachi.Morpheme :=
  [ {| Sudachi.surface := lit "BOS"; Sudachi.part_of_speech := [] |};
    {| Sudachi.surface := utsukushii;
       Sudachi.part_of_speech := [SudachiTokenizer.keiyoushi] |};
    {| Sudachi.surface := hana;
       Sudachi.part_of_speech := [SudachiTokenizer.meishi] |};
    {| Sudachi.surface := lit "EOS"; Sudachi.part_of_speech := [] |} ].

(** An instance in split mode C over that analyzer output, and the tokens
    it computes. *)
Definition flower_tokenizer : SudachiTokenizer.t :=
  SudachiTokenizer.__init__ (analyzer beautiful_flower) (lit "C").
Definition flower_tokens : list (str * str) :=
  [(utsukushii, SudachiTokenizer.keiyoushi); (hana, SudachiTokenizer.meishi)].

End Japanese.

(** *** The phrase list, in the words of the specification

    In what follows [syms] is the classified symbol sequence of [tokens],
    [ms] the matches found, [spans] the spans of the returned phrases and
    [phrases] the returned phrase list. *)

(** The match contains a noun. *)
Definition has_noun (syms : list Symbol) (mt : Match) : Prop :=
  exists i, start mt <= i /\ i < end_ mt /\ nth_error syms i = Some Noun.

(** The phrase of a span: its token texts joined with an underscore. *)
Definition phrase_of (tokens : list (str * str)) (mt : Match) : str :=
  join (lit "_") (span_texts tokens mt).

(** The texts of a span are those of the tokens at its positions, in the
    order of the sentence. *)
Definition in_sentence_order (tokens : list (str * str)) (mt : Match) : Prop :=
  length (span_texts tokens mt) = end_ mt - start mt /\
  forall k, k < end_ mt - start mt ->
    nth_error (span_texts tokens mt) k
    = option_map fst (nth_error tokens (start mt + k)).

(** The returned spans are exactly the leftmost greedy matches. *)
Definition all_matches_returned (syms : list Symbol) (spans : list Match)
  : Prop :=
  forall ms, leftmost_greedy syms 0 ms -> spans = ms.

(** The returned spans are exactly the leftmost greedy matches of at most
    three tokens; every match contains a noun; without a noun, and for the
    empty sentence, no phrase is returned. *)
Definition short_matches_returned (syms : list Symbol)
    (tokens : list (str * str)) (spans : list Match) (phrases : list str)
  : Prop :=
  (exists ms, leftmost_greedy syms 0 ms) /\
  (forall ms, leftmost_greedy syms 0 ms ->
     spans = filter (fun mt => end_ mt - start mt <=? 3) ms /\
     Forall (has_noun syms) ms) /\
  phrases = map (phrase_of tokens) spans /\
  ((forall i, nth_error syms i <> Some Noun) -> phrases = []) /\
  (tokens = [] -> phrases = []).

(** Every returned phrase has at most three tokens; a match of more than
    three tokens is not returned, and no returned span shares a position
    with it; a match of at most three tokens is returned. *)
Definition length_limited (tokens : list (str * str)) (ms spans : list Match)
    (phrases : list str) : Prop :=
  phrases = map (phrase_of tokens) spans /\
  Forall (fun mt => length (span_texts tokens mt) <= 3 /\
                    in_sentence_order tokens mt) spans /\
  (forall mt, In mt ms -> 3 < end_ mt - start mt ->
     ~ In mt spans /\ forall sp, In sp spans -> ~ overlap sp mt) /\
  (forall mt, In mt ms -> end_ mt - start mt <= 3 -> In mt spans).

(** Any two returned spans at different places of the list share no token
    position. *)
Definition pairwise_disjoint (spans : list Match) : Prop :=
  forall i j m1 m2, i <> j ->
    nth_error spans i = Some m1 -> nth_error spans j = Some m2 ->
    ~ overlap m1 m2.

(** One phrase per returned span and in the order of the spans, the spans
    from left to right, the texts of each in the order of the sentence. *)
Definition order_kept (tokens : list (str * str)) (spans : list Match)
    (phrases : list str) : Prop :=
  length phrases = length spans /\
  (forall i, nth_error phrases i
             = option_map (phrase_of tokens) (nth_error spans i)) /\
  (forall i j m1 m2, i < j ->
     nth_error spans i = Some m1 -> nth_error spans j = Some m2 ->
     start m1 < start m2) /\
  Forall (in_sentence_order tokens) spans.

(** The pos tags are as many as the tokens and the one at [i] is the
    letter of the tag of token [i]; so is character [i] of their
    concatenation. *)
Definition aligned (anonymize : str -> str) (tokens : list (str * str))
    (pos_tags : list str) : Prop :=
  length pos_tags = length tokens /\
  length (join [] pos_tags) = length tokens /\
  forall i,
    nth_error pos_tags i
    = option_map (fun token => anonymize (snd token)) (nth_error tokens i) /\
    option_map (fun c => [c]) (nth_error (join [] pos_tags) i)
    = nth_error pos_tags i.

(** [anonymize] maps exactly the tags of [adjectives] to the letter that
    stands for Adjective, exactly those of [nouns] to the letter that stands
    for Noun, and every other string to the letter that stands for Other. *)
Definition classifies (anonymize : str -> str) (cA cN cO : N)
    (adjectives nouns : list str) : Prop :=
  symbol_of_letter cA cN [cA] = Adjective /\
  symbol_of_letter cA cN [cN] = Noun /\
  symbol_of_letter cA cN [cO] = Other /\
  forall pos,
    (anonymize pos = [cA] <-> In pos adjectives) /\
    (anonymize pos = [cN] <-> In pos nouns) /\
    (anonymize pos = [cO] <-> ~ In pos adjectives /\ ~ In pos nouns).

(** *** Further properties of the two classes, in words *)

(** The symbol stands for a content word: an adjective or a noun. *)
Definition is_content (symbol : Symbol) : bool :=
  match symbol with
  | Other => false
  | _ => true
  end.

(** The symbol is Noun. *)
Definition is_noun (symbol : Symbol) : bool :=
  match symbol with
  | Noun => true
  | _ => false
  end.

(** A match that cannot be extended: adjectives then nouns, no noun right
    behind it and no adjective right before it. *)
Definition maximal_run (syms : list Symbol) (mt : Match) : Prop :=
  run_form syms (start mt) (end_ mt) /\
  nth_error syms (end_ mt) <> Some Noun /\
  (0 < start mt -> nth_error syms (start mt - 1) <> Some Adjective).

(** The mode strings the constructor of [SudachiTokenizer] knows, with
    the split mode each one selects. *)
Definition known_modes : list (str * SplitMode.t) :=
  [(lit "A", SplitMode.A); (lit "B", SplitMode.B); (lit "C", SplitMode.C)].

(** A morpheme the adapter keeps but cannot take the tag of. *)
Definition lacks_part_of_speech (morph : Sudachi.Morpheme) : Prop :=
  ~ Japanese.discarded (Sudachi.surface morph) /\
  Sudachi.part_of_speech morph = [].

(** The tuple the adapter makes of a morpheme it keeps. *)
Definition morph_token (morph : Sudachi.Morpheme) : str * str :=
  (Sudachi.surface morph, hd [] (Sudachi.part_of_speech morph)).

(** The morphemes the adapter keeps. *)
Definition kept_morphs (morphs : list Sudachi.Morpheme)
  : list Sudachi.Morpheme :=
  filter (fun morph => negb (Japanese.is_discarded (Sudachi.surface morph)))
    morphs.

(** *** The classification table, in the words of the specification *)

(** The class of a tag by exact lookup in the two tables of a language:
    Adjective for a tag of [adjectives], Noun for one of [nouns], Other
    for every other string. *)
Definition classify (adjectives nouns : list str) (pos_tag : str) : Symbol :=
  if contains adjectives pos_tag then Adjective
  else if contains nouns pos_tag then Noun
  else Other.

(** *** The English [tokenize] on tuples of any length

    [StanfordCoreNlpTokenizer.tokenize] above takes the tagger at its
    word: every element of [pos_tag(sentence)] is a pair.  Here an element
    is a Python tuple of strings of any length, and [token[0]] and
    [token[1]] raise IndexError where the tuple is too short. *)

Module Tuples.

Definition tuple : Type := list str.

(** [token[i]]. *)
Definition item (token : tuple) (i : nat) : result str :=
  match nth_error token i with
  | Some x => ret x
  | None => raise IndexError
  end.

(** A list comprehension whose element expression can raise: the elements
    are computed from left to right and the first exception ends it. *)
Fixpoint mapM {A B : Type} (f : A -> result B) (l : list A)
  : result (list B) :=
  match l with
  | [] => ret []
  | x :: rest =>
      try y <- f x ;;
      try ys <- mapM f rest ;;
      ret (y :: ys)
  end.

(** The tagger: [pos_tag(sentence)] returns a list of tuples. *)
Record StanfordCoreNLP : Type := { pos_tag : str -> list tuple }.

(** [[token[0] for token in tokens if token[1] in pos_filter]]. *)
Fixpoint select (pos_filter : list str) (tokens : list tuple)
  : result (list str) :=
  match tokens with
  | [] => ret []
  | token :: rest =>
      try tag <- item token 1 ;;
      if contains pos_filter tag then
        try text <- item token 0 ;;
        try out <- select pos_filter rest ;;
        ret (text :: out)
      else select pos_filter rest
  end.

(** Lines 45-51, statement by statement. *)
Definition tokenize (tagger : StanfordCoreNLP) (sentence : str)
    (pos_filter : list str) : result (list str * list str) :=
  let tokens := pos_tag tagger sentence in
  try pos_tags <-
    mapM (fun token =>
            try tag <- item token 1 ;;
            ret (StanfordCoreNlpTokenizer._anonymize_pos tag)) tokens ;;
  let iterator :=
    finditer StanfordCoreNlpTokenizer.pattern (join [] pos_tags) in
  try spans <-
    mapM (fun mt =>
            mapM (fun token => item token 0)
              (slice tokens (start mt) (end_ mt))) iterator ;;
  let phrases := filter (fun x => length x <=? 3) spans in
  let phrases := map (join (lit "_")) phrases in
  try out <- select pos_filter tokens ;;
  ret (out, phrases).




End Tuples.

(** *** An analyzer whose output depends on the split mode *)

(** In mode A the two morphemes 美しい and 花, in the other modes the one
    morpheme 花. *)
Definition mode_sensitive : Sudachi.Tokenizer :=
  {| Sudachi.tokenize :=
       fun _ mode =>
         match mode with
         | SplitMode.A =>
             [ {| Sudachi.surface := Japanese.utsukushii;
                  Sudachi.part_of_speech := [SudachiTokenizer.keiyoushi] |};
               {| Sudachi.surface := Japanese.hana;
                  Sudachi.part_of_speech := [SudachiTokenizer.meishi] |} ]
         | _ =>
             [ {| Sudachi.surface := Japanese.hana;
                  Sudachi.part_of_speech := [SudachiTokenizer.meishi] |} ]
         end |}.

(* ================================================================= *)
(** ** Facts about the Python built-ins *)

Lemma str_eqb_eq (a b : str) : str_eqb a b = true <-> a = b.
Proof.
  revert b; induction a as [|x a IH]; intros [|y b]; simpl;
    try (split; [discriminate | congruence]); try tauto.
  rewrite andb_true_iff, N.eqb_eq, IH.
  split; [intros [-> ->]; reflexivity | intros H; inversion H; auto].
Qed.

Lemma str_eqb_refl (a : str) : str_eqb a a = true.
Proof. apply str_eqb_eq; reflexivity. Qed.

Lemma str_eqb_neq (a b : str) : str_eqb a b = false <-> a <> b.
Proof.
  destruct (str_eqb a b) eqn:E.
  - apply str_eqb_eq in E. split; [discriminate | congruence].
  - split; [intros _ H | reflexivity].
    apply str_eqb_eq in H. congruence.
Qed.

Lemma contains_In (xs : list str) (x : str) :
  contains xs x = true <-> In x xs.
Proof.
  unfold contains. rewrite existsb_exists. split.
  - intros (y & Hy & E). apply str_eqb_eq in E. subst; assumption.
  - intros H. exists x. split; [assumption | apply str_eqb_refl].
Qed.

Lemma contains_not_In (xs : list str) (x : str) :
  contains xs x = false <-> ~ In x xs.
Proof.
  rewrite <- contains_In. destruct (contains xs x); split; congruence.
Qed.

(** Joining one-letter strings with the empty separator gives the string of
    the letters: position [i] of the result is the letter of part [i]. *)
Lemma join_letters {A : Type} (f : A -> str) (g : A -> N) (l : list A) :
  (forall x, f x = [g x]) -> join [] (map f l) = map g l.
Proof.
  intros Hf. induction l as [|x l IH]; simpl; [reflexivity|].
  rewrite Hf. destruct l as [|y l]; [reflexivity|].
  simpl in IH |- *. rewrite <- IH. reflexivity.
Qed.

Lemma slice_length {A : Type} (xs : list A) (lo hi : nat) :
  lo <= hi -> hi <= length xs -> length (slice xs lo hi) = hi - lo.
Proof.
  intros H1 H2. unfold slice. rewrite length_skipn, length_firstn. lia.
Qed.

Lemma slice_nth_error {A : Type} (xs : list A) (lo hi k : nat) :
  lo + k < hi -> nth_error (slice xs lo hi) k = nth_error xs (lo + k).
Proof.
  intros H. unfold slice.
  rewrite nth_error_skipn, nth_error_firstn.
  destruct (Nat.ltb_spec (lo + k) hi); [reflexivity | lia].
Qed.

(* ================================================================= *)
(** ** The matcher on the pattern (adjective)*(noun)+ *)

Section PatternFacts.

Variables cA cN : N.
Hypothesis letters_differ : cA <> cN.
Variable s : str.

(** Every position starts a (possibly empty) maximal run of [c]. *)
Lemma run_of_char (c : N) :
  forall n i, length s - i <= n ->
  exists j, i <= j /\ j - i <= length s - i /\
    (forall p, i <= p -> p < j -> nth_error s p = Some c) /\
    nth_error s j <> Some c.
Proof.
  induction n as [|n IH]; intros i Hn.
  - exists i. repeat split; try lia.
    rewrite (proj2 (nth_error_None s i)) by lia. discriminate.
  - destruct (nth_error s i) as [x|] eqn:E.
    + destruct (N.eq_dec x c) as [->|Hx].
      * assert (Hlt : i < length s) by (apply nth_error_Some; congruence).
        destruct (IH (S i)) as (j & H1 & H2 & H3 & H4); [lia|].
        exists j. repeat split; try lia; [|assumption].
        intros p Hp1 Hp2. destruct (Nat.eq_dec p i) as [->|]; [assumption|].
        apply H3; lia.
      * exists i. repeat split; try lia. congruence.
    + exists i. repeat split; try lia. congruence.
Qed.

(** One step of a repetition. *)
Lemma repeat_greedy_step body k fuel i :
  repeat_greedy body k (S fuel) i
  = match body i (fun j => if i <? j then repeat_greedy body k fuel j
                           else None) with
    | Some e => Some e
    | None => k i
    end.
Proof. reflexivity. Qed.

(** One character, unfolded. *)
Lemma run_chr_hit (c : N) (i : nat) (k : nat -> option nat) :
  nth_error s i = Some c -> run (Chr c) s i k = k (S i).
Proof. intros H. simpl. rewrite H, N.eqb_refl. reflexivity. Qed.

Lemma run_chr_miss (c : N) (i : nat) (k : nat -> option nat) :
  nth_error s i <> Some c -> run (Chr c) s i k = None.
Proof.
  intros H. simpl. destruct (nth_error s i) as [x|]; [|reflexivity].
  destruct (N.eqb_spec x c); [congruence | reflexivity].
Qed.

(** A repetition of one character whose continuation fails inside the
    run hands over at the end of the run. *)
Lemma repeat_chr_through (c : N) (k : nat -> option nat) (j : nat) :
  nth_error s j <> Some c ->
  forall fuel i, i <= j -> j - i < fuel ->
    (forall p, i <= p -> p < j -> nth_error s p = Some c) ->
    (forall p, i <= p -> p < j -> k p = None) ->
    repeat_greedy (run (Chr c) s) k fuel i = k j.
Proof.
  intros Hstop. induction fuel as [|fuel IH]; intros i Hij Hf Hrun Hk; [lia|].
  rewrite repeat_greedy_step. destruct (Nat.eq_dec i j) as [->|Hne].
  - rewrite run_chr_miss by assumption. reflexivity.
  - rewrite run_chr_hit by (apply Hrun; lia).
    rewrite (proj2 (Nat.ltb_lt i (S i))) by lia.
    rewrite IH; try lia.
    + destruct (k j); [reflexivity|]. apply Hk; lia.
    + intros p ? ?. apply Hrun; lia.
    + intros p ? ?. apply Hk; lia.
Qed.

(** A repetition of one character at the end of the pattern takes the
    whole run. *)
Lemma repeat_chr_last (c : N) (j : nat) :
  nth_error s j <> Some c ->
  forall fuel i, i <= j -> j - i < fuel ->
    (forall p, i <= p -> p < j -> nth_error s p = Some c) ->
    repeat_greedy (run (Chr c) s) (fun e => Some e) fuel i = Some j.
Proof.
  intros Hstop. induction fuel as [|fuel IH]; intros i Hij Hf Hrun; [lia|].
  rewrite repeat_greedy_step. destruct (Nat.eq_dec i j) as [->|Hne].
  - rewrite run_chr_miss by assumption. reflexivity.
  - rewrite run_chr_hit by (apply Hrun; lia).
    rewrite (proj2 (Nat.ltb_lt i (S i))) by lia.
    rewrite IH; try lia; [reflexivity|].
    intros p ? ?. apply Hrun; lia.
Qed.

(** The pattern, unfolded down to its characters. *)
Lemma run_pattern (i : nat) (k : nat -> option nat) :
  run (Cat (Star (Chr cA)) (Plus (Chr cN))) s i k
  = repeat_greedy (run (Chr cA) s)
      (fun j => run (Chr cN) s j
         (fun j' => repeat_greedy (run (Chr cN) s) k (S (length s - j')) j'))
      (S (length s - i)) i.
Proof. reflexivity. Qed.

(** What the matcher answers at a position, in terms of the run of [cA]
    from there and the run of [cN] behind it. *)
Lemma match_at_runs (i : nat) :
  exists a b, i <= a /\ a <= b /\
    (forall p, i <= p -> p < a -> nth_error s p = Some cA) /\
    nth_error s a <> Some cA /\
    (forall p, a <= p -> p < b -> nth_error s p = Some cN) /\
    nth_error s b <> Some cN /\
    match_at (Cat (Star (Chr cA)) (Plus (Chr cN))) s i
    = if a <? b then Some b else None.
Proof.
  destruct (run_of_char cA (length s - i) i (le_n _))
    as (a & Ha1 & Ha2 & Ha3 & Ha4).
  destruct (run_of_char cN (length s - a) a (le_n _))
    as (b & Hb1 & Hb2 & Hb3 & Hb4).
  exists a, b. repeat split; try assumption.
  unfold match_at. rewrite run_pattern.
  rewrite (repeat_chr_through cA _ a Ha4); try lia; try assumption.
  - destruct (Nat.ltb_spec a b) as [Hab|Hab].
    + rewrite run_chr_hit by (apply Hb3; lia).
      apply repeat_chr_last; try assumption; try lia.
      intros p ? ?. apply Hb3; lia.
    + assert (a = b) by lia. subst b. apply run_chr_miss. assumption.
  - intros p Hp1 Hp2. apply run_chr_miss.
    rewrite (Ha3 p Hp1 Hp2). congruence.
Qed.

End PatternFacts.

(* ================================================================= *)
(** ** [re.finditer] finds the leftmost greedy matches *)

(** A run lies inside the sentence and is not empty. *)
Lemma run_form_bounds (l : list Symbol) (b e : nat) :
  run_form l b e -> b < e /\ e <= length l.
Proof.
  intros (a & H1 & H2 & _ & H4). split; [lia|].
  assert (H : nth_error l (e - 1) <> None)
    by (rewrite (H4 (e - 1)); [discriminate | lia | lia]).
  apply nth_error_Some in H. lia.
Qed.

Lemma no_match_beyond (l : list Symbol) (p : nat) :
  length l <= p -> ~ can_match l p.
Proof. intros H [e He]. apply run_form_bounds in He. lia. Qed.

Section FinditerFacts.

Variables cA cN : N.
Hypothesis letters_differ : cA <> cN.
Variable s : str.

Local Notation "'pat'" := (Cat (Star (Chr cA)) (Plus (Chr cN))).
Local Notation "'syms'" := (map (symbol_of_char cA cN) s).

Lemma symbol_adjective (p : nat) :
  nth_error syms p = Some Adjective <-> nth_error s p = Some cA.
Proof.
  rewrite nth_error_map. destruct (nth_error s p) as [x|]; simpl.
  - unfold symbol_of_char.
    destruct (N.eqb_spec x cA); [subst; tauto|].
    destruct (N.eqb_spec x cN); split; congruence.
  - split; discriminate.
Qed.

Lemma symbol_noun (p : nat) :
  nth_error syms p = Some Noun <-> nth_error s p = Some cN.
Proof.
  rewrite nth_error_map. destruct (nth_error s p) as [x|]; simpl.
  - unfold symbol_of_char.
    destruct (N.eqb_spec x cA); [subst; split; congruence|].
    destruct (N.eqb_spec x cN); [subst; tauto|split; congruence].
  - split; discriminate.
Qed.

(** A run of the form (adjectives)*(nouns)+ from [i] is pinned down by
    the two character runs that start at [i]. *)
Lemma run_form_pinned (i a b e : nat) :
  i <= a -> a <= b ->
  (forall p, i <= p -> p < a -> nth_error s p = Some cA) ->
  nth_error s a <> Some cA ->
  (forall p, a <= p -> p < b -> nth_error s p = Some cN) ->
  nth_error s b <> Some cN ->
  run_form syms i e <-> a < e /\ e <= b.
Proof.
  intros Hia Hab HA HAstop HN HNstop. split.
  - intros (a' & H1 & H2 & H3 & H4).
    assert (Ea : a' = a).
    { destruct (Nat.lt_trichotomy a' a) as [Hlt|[Heq|Hgt]]; [|assumption|].
      - exfalso. specialize (H4 a' (le_n _) H2). apply symbol_noun in H4.
        rewrite (HA a' H1 Hlt) in H4. congruence.
      - exfalso. apply HAstop. apply symbol_adjective. apply H3; lia. }
    subst a'. split; [assumption|].
    destruct (Nat.le_gt_cases e b) as [|Hbe]; [assumption|].
    exfalso. apply HNstop. apply symbol_noun. apply H4; lia.
  - intros [H1 H2]. exists a. repeat split; try lia.
    + intros p ? ?. apply symbol_adjective. apply HA; assumption.
    + intros p ? ?. apply symbol_noun. apply HN; lia.
Qed.

Lemma match_at_some (i e : nat) :
  match_at pat s i = Some e ->
  run_form syms i e /\ (forall e', run_form syms i e' -> e' <= e).
Proof.
  destruct (match_at_runs cA cN letters_differ s i)
    as (a & b & H1 & H2 & H3 & H4 & H5 & H6 & ->).
  destruct (Nat.ltb_spec a b) as [Hab|Hab]; [|discriminate].
  intros [= <-]. split.
  - apply (run_form_pinned i a b b H1 H2 H3 H4 H5 H6). lia.
  - intros e' He'. apply (run_form_pinned i a b e' H1 H2 H3 H4 H5 H6) in He'. lia.
Qed.

Lemma match_at_none (i : nat) :
  match_at pat s i = None -> ~ can_match syms i.
Proof.
  destruct (match_at_runs cA cN letters_differ s i)
    as (a & b & H1 & H2 & H3 & H4 & H5 & H6 & ->).
  destruct (Nat.ltb_spec a b) as [Hab|Hab]; [discriminate|].
  intros _ [e He]. apply (run_form_pinned i a b e H1 H2 H3 H4 H5 H6) in He. lia.
Qed.

(** [search] returns the first position from [pos] where the matcher
    succeeds, and fails only when it fails at every position tried. *)
Lemma search_some (n pos : nat) (mt : Match) :
  search pat s pos n = Some mt ->
  pos <= start mt /\ start mt <= pos + n /\
  (forall p, pos <= p -> p < start mt -> match_at pat s p = None) /\
  match_at pat s (start mt) = Some (end_ mt).
Proof.
  revert pos. induction n as [|n IH]; intros pos; simpl;
    destruct (match_at pat s pos) as [e|] eqn:E.
  - intros [= <-]. simpl. split; [|split; [|split]]; try lia; assumption.
  - discriminate.
  - intros [= <-]. simpl. split; [|split; [|split]]; try lia; assumption.
  - intros H. destruct (IH _ H) as (H1 & H2 & H3 & H4).
    split; [|split; [|split]]; try lia; [|assumption].
    intros p Hp1 Hp2. destruct (Nat.eq_dec p pos) as [->|]; [assumption|].
    apply H3; lia.
Qed.

Lemma search_none (n pos : nat) :
  search pat s pos n = None ->
  forall p, pos <= p -> p <= pos + n -> match_at pat s p = None.
Proof.
  revert pos. induction n as [|n IH]; intros pos; simpl;
    destruct (match_at pat s pos) as [e|] eqn:E; try discriminate.
  - intros _ p ? ?. replace p with pos by lia. assumption.
  - intros H p Hp1 Hp2. destruct (Nat.eq_dec p pos) as [->|]; [assumption|].
    apply (IH _ H); lia.
Qed.

(** The loop of [finditer], with enough fuel, yields the leftmost greedy
    matches from its scan position on. *)
Lemma finditer_from_leftmost_greedy :
  forall fuel pos, length s + 2 <= fuel + pos ->
    leftmost_greedy syms pos (finditer_from fuel pat s pos).
Proof.
  induction fuel as [|fuel IH]; intros pos Hf.
  - simpl. constructor. intros p Hp. apply no_match_beyond.
    rewrite length_map. lia.
  - simpl. destruct (Nat.ltb_spec (length s) pos) as [Hlt|Hle].
    + constructor. intros p Hp. apply no_match_beyond.
      rewrite length_map. lia.
    + destruct (search pat s pos (length s - pos)) as [[b e]|] eqn:E.
      * apply search_some in E. simpl in E.
        destruct E as (H1 & H2 & H3 & H4).
        destruct (match_at_some _ _ H4) as [Hrun Hmax].
        destruct (run_form_bounds _ _ _ Hrun) as [Hbe Hlen].
        simpl. rewrite (proj2 (Nat.ltb_lt b e) Hbe).
        constructor; try assumption.
        -- intros p Hp1 Hp2. apply match_at_none. apply H3; assumption.
        -- apply IH. lia.
      * constructor. intros p Hp.
        destruct (Nat.le_gt_cases p (length s)) as [Hin|Hout].
        -- apply match_at_none. eapply search_none; [exact E | lia | lia].
        -- apply no_match_beyond. rewrite length_map. lia.
Qed.

Lemma finditer_leftmost_greedy :
  leftmost_greedy syms 0 (finditer pat s).
Proof. apply finditer_from_leftmost_greedy. lia. Qed.

End FinditerFacts.

(** *** What being leftmost greedy determines *)

Section LeftmostGreedyFacts.

Variable syms : list Symbol.

(** The leftmost greedy matches from a position are unique. *)
Lemma leftmost_greedy_unique {pos : nat} {ms1 ms2 : list Match} :
  leftmost_greedy syms pos ms1 -> leftmost_greedy syms pos ms2 ->
  ms1 = ms2.
Proof.
  intros H1. revert ms2.
  induction H1 as [pos Hno|pos b e ms Hpos Hleft Hrun Hmax Hrest IH];
    intros ms2 H2; inversion H2 as [pos' Hno'|pos' b' e' ms' Hpos' Hleft' Hrun' Hmax' Hrest'];
    subst.
  - reflexivity.
  - exfalso. apply (Hno b' Hpos'). exists e'. assumption.
  - exfalso. apply (Hno' b Hpos). exists e. assumption.
  - assert (Eb : b = b').
    { destruct (Nat.lt_trichotomy b b') as [Hlt|[Heq|Hgt]]; [|assumption|].
      - exfalso. apply (Hleft' b Hpos Hlt). exists e. assumption.
      - exfalso. apply (Hleft b' Hpos' Hgt). exists e'. assumption. }
    subst b'.
    assert (Ee : e = e')
      by (apply Nat.le_antisymm; [apply Hmax' | apply Hmax]; assumption).
    subst e'. f_equal. apply IH. assumption.
Qed.

(** Every match is a non-empty run inside the sentence, at or after the
    scan position, and ends before all later matches start. *)
Lemma leftmost_greedy_shape {pos : nat} {ms : list Match} :
  leftmost_greedy syms pos ms ->
  Forall (fun mt => pos <= start mt /\ run_form syms (start mt) (end_ mt)) ms
  /\ StronglySorted before ms.
Proof.
  induction 1 as [pos Hno|pos b e ms Hpos Hleft Hrun Hmax Hrest [IH1 IH2]].
  - split; constructor.
  - destruct (run_form_bounds _ _ _ Hrun) as [Hbe _]. split.
    + constructor; [simpl; auto|].
      eapply Forall_impl; [|exact IH1]. simpl. intros mt [? ?].
      split; [lia | assumption].
    + constructor; [assumption|].
      eapply Forall_impl; [|exact IH1]. unfold before. simpl.
      intros mt [? _]. assumption.
Qed.

End LeftmostGreedyFacts.

(* ================================================================= *)
(** ** Lists of matches in scan order *)

Lemma filter_of_map {A B : Type} (f : B -> bool) (g : A -> B) (l : list A) :
  filter f (map g l) = map g (filter (fun x => f (g x)) l).
Proof.
  induction l as [|x l IH]; simpl; [reflexivity|].
  destruct (f (g x)); simpl; rewrite IH; reflexivity.
Qed.

Lemma sorted_filter {A : Type} (R : A -> A -> Prop) (f : A -> bool)
    (l : list A) :
  StronglySorted R l -> StronglySorted R (filter f l).
Proof.
  induction 1 as [|x l Hs IH Hx]; simpl; [constructor|].
  destruct (f x); [|assumption].
  constructor; [assumption|].
  apply Forall_forall. intros y Hy. apply filter_In in Hy.
  rewrite Forall_forall in Hx. apply Hx. tauto.
Qed.

Lemma sorted_nth {A : Type} {R : A -> A -> Prop} {l : list A} :
  StronglySorted R l ->
  forall {i j x y}, i < j ->
    nth_error l i = Some x -> nth_error l j = Some y -> R x y.
Proof.
  induction 1 as [|a l Hs IH Ha]; intros i j x y Hij Hi Hj.
  - destruct i; discriminate.
  - destruct j as [|j]; [lia|]. simpl in Hj.
    destruct i as [|i]; simpl in Hi.
    + injection Hi as <-. rewrite Forall_forall in Ha.
      apply Ha. eapply nth_error_In; eassumption.
    + apply (IH i j x y); [lia | assumption | assumption].
Qed.

Lemma sorted_In_cases {A : Type} {R : A -> A -> Prop} {l : list A} :
  StronglySorted R l ->
  forall x y, In x l -> In y l -> x = y \/ R x y \/ R y x.
Proof.
  induction 1 as [|a l Hs IH Ha]; intros x y Hx Hy; [contradiction|].
  rewrite Forall_forall in Ha.
  destruct Hx as [<-|Hx], Hy as [<-|Hy]; auto.
Qed.

Lemma before_no_overlap {m1 m2 : Match} : before m1 m2 -> ~ overlap m1 m2.
Proof. unfold before. intros H (p & ? & ? & ? & ?). lia. Qed.

Lemma overlap_sym {m1 m2 : Match} : overlap m1 m2 -> overlap m2 m1.
Proof. intros (p & ? & ? & ? & ?). exists p. auto. Qed.

Lemma sorted_pairwise_disjoint (l : list Match) :
  StronglySorted before l -> pairwise_disjoint l.
Proof.
  intros Hs i j m1 m2 Hij Hi Hj.
  destruct (Nat.lt_total i j) as [Hlt|[Heq|Hgt]]; [|contradiction|].
  - apply before_no_overlap. exact (sorted_nth Hs Hlt Hi Hj).
  - intros Ho. apply overlap_sym in Ho. revert Ho.
    apply before_no_overlap. exact (sorted_nth Hs Hgt Hj Hi).
Qed.

(** A run of the form (adjectives)*(nouns)+ contains a noun. *)
Lemma run_form_has_noun {syms : list Symbol} (mt : Match) :
  run_form syms (start mt) (end_ mt) -> has_noun syms mt.
Proof.
  intros (a & H1 & H2 & _ & H4). exists a. repeat split; try lia.
  apply H4; lia.
Qed.

(** Without a noun there is no match. *)
Lemma leftmost_greedy_no_noun {syms : list Symbol} {pos : nat}
    {ms : list Match} :
  (forall i, nth_error syms i <> Some Noun) ->
  leftmost_greedy syms pos ms -> ms = [].
Proof.
  intros Hno H. destruct H as [|pos b e ms _ _ Hrun _ _]; [reflexivity|].
  exfalso. destruct (run_form_has_noun (mkMatch b e) Hrun) as (i & _ & _ & Hi).
  exact (Hno i Hi).
Qed.

(* ================================================================= *)
(** ** The extraction, for any pair of pattern letters *)

Section Extraction.

Variables cA cN : N.
Hypothesis letters_differ : cA <> cN.

(** [anonymize] returns one letter for every tag. *)
Variable anonymize : str -> str.
Variable letter : str -> N.
Hypothesis anonymize_letter : forall pos, anonymize pos = [letter pos].

Variable tokens : list (str * str).

Local Notation "'pat'" := (Cat (Star (Chr cA)) (Plus (Chr cN))).
Local Notation "'pos_tags'" :=
  (map (fun token => anonymize (snd token)) tokens).
Local Notation "'syms'" := (map (symbol_of_letter cA cN) pos_tags).
Local Notation "'ms'" := (finditer pat (join [] pos_tags)).

Lemma joined_letters :
  join [] pos_tags = map (fun token => letter (snd token)) tokens.
Proof.
  apply join_letters. intros token. apply anonymize_letter.
Qed.

Lemma symbols_of_joined :
  syms = map (symbol_of_char cA cN) (join [] pos_tags).
Proof.
  rewrite joined_letters, !map_map. apply map_ext. intros token.
  rewrite anonymize_letter. reflexivity.
Qed.

Lemma symbols_length : length syms = length tokens.
Proof. rewrite !length_map. reflexivity. Qed.

Lemma pos_tags_aligned : aligned anonymize tokens pos_tags.
Proof.
  split; [apply length_map|].
  split; [rewrite joined_letters; apply length_map|].
  intros i. split; [apply nth_error_map|].
  rewrite joined_letters, !nth_error_map.
  destruct (nth_error tokens i) as [token|]; simpl; [|reflexivity].
  rewrite anonymize_letter. reflexivity.
Qed.

Lemma matches_leftmost_greedy : leftmost_greedy syms 0 ms.
Proof.
  rewrite symbols_of_joined.
  apply finditer_leftmost_greedy. assumption.
Qed.

Lemma matches_shape :
  Forall (fun mt => run_form syms (start mt) (end_ mt)) ms /\
  StronglySorted before ms.
Proof.
  destruct (leftmost_greedy_shape _ matches_leftmost_greedy) as [H1 H2].
  split; [|assumption].
  eapply Forall_impl; [|exact H1]. simpl. tauto.
Qed.

(** The slice of a run has the tokens of its positions. *)
Lemma run_in_sentence_order (mt : Match) :
  run_form syms (start mt) (end_ mt) -> in_sentence_order tokens mt.
Proof.
  intros Hrun. apply run_form_bounds in Hrun.
  rewrite symbols_length in Hrun. destruct Hrun as [Hlt Hle].
  unfold in_sentence_order, span_texts. split.
  - rewrite length_map. apply slice_length; lia.
  - intros k Hk. rewrite nth_error_map. f_equal.
    apply slice_nth_error. lia.
Qed.

Lemma kept_spans_by_width :
  kept_spans tokens ms = filter (fun mt => end_ mt - start mt <=? 3) ms.
Proof.
  unfold kept_spans. apply filter_ext_in. intros mt Hin.
  destruct matches_shape as [Hall _]. rewrite Forall_forall in Hall.
  destruct (run_in_sentence_order mt (Hall mt Hin)) as [-> _]. reflexivity.
Qed.

Lemma extract_phrases_of_spans (pattern : regex) (tags : list str) :
  extract_phrases pattern tokens tags
  = map (phrase_of tokens)
      (kept_spans tokens (finditer pattern (join [] tags))).
Proof.
  unfold extract_phrases, kept_spans. rewrite filter_of_map, map_map.
  reflexivity.
Qed.

Lemma kept_spans_shape :
  Forall (fun mt => run_form syms (start mt) (end_ mt) /\
                    length (span_texts tokens mt) <= 3)
    (kept_spans tokens ms) /\
  StronglySorted before (kept_spans tokens ms).
Proof.
  destruct matches_shape as [Hall Hsorted]. split.
  - apply Forall_forall. intros mt Hin. apply filter_In in Hin.
    destruct Hin as [Hin Hlen]. rewrite Forall_forall in Hall.
    split; [auto|]. apply Nat.leb_le. assumption.
  - apply sorted_filter. assumption.
Qed.

Lemma extraction_short_matches :
  short_matches_returned syms tokens (kept_spans tokens ms)
    (extract_phrases pat tokens pos_tags).
Proof.
  assert (Hnone : (forall i, nth_error syms i <> Some Noun) ->
                  extract_phrases pat tokens pos_tags = []).
  { intros Hno. rewrite extract_phrases_of_spans.
    rewrite (leftmost_greedy_no_noun Hno matches_leftmost_greedy).
    reflexivity. }
  split; [exists ms; apply matches_leftmost_greedy|].
  split; [|split; [apply extract_phrases_of_spans|split; [exact Hnone|]]].
  - intros ms' Hms'.
    rewrite (leftmost_greedy_unique _ Hms' matches_leftmost_greedy).
    split; [apply kept_spans_by_width|].
    destruct matches_shape as [Hall _].
    eapply Forall_impl; [|exact Hall].
    intros mt. apply run_form_has_noun.
  - intros Hempty. apply Hnone. intros i.
    rewrite !nth_error_map, Hempty. destruct i; discriminate.
Qed.

Lemma extraction_length_limited :
  length_limited tokens ms (kept_spans tokens ms)
    (extract_phrases pat tokens pos_tags).
Proof.
  destruct kept_spans_shape as [Hkept _].
  destruct matches_shape as [Hall Hsorted].
  rewrite Forall_forall in Hall, Hkept.
  split; [apply extract_phrases_of_spans|].
  split; [|split].
  - apply Forall_forall. intros mt Hin. destruct (Hkept mt Hin).
    split; [assumption | apply run_in_sentence_order; assumption].
  - intros mt Hin Hlong.
    assert (Hout : ~ In mt (kept_spans tokens ms)).
    { intros Hk. destruct (Hkept mt Hk) as [Hrun Hlen].
      destruct (run_in_sentence_order mt Hrun) as [E _]. lia. }
    split; [assumption|].
    intros sp Hsp Hover.
    assert (Hsp' : In sp ms) by (apply filter_In in Hsp; tauto).
    destruct (sorted_In_cases Hsorted sp mt Hsp' Hin) as [->|[Hb|Hb]].
    + contradiction.
    + exact (before_no_overlap Hb Hover).
    + exact (before_no_overlap Hb (overlap_sym Hover)).
  - intros mt Hin Hshort. apply filter_In. split; [assumption|].
    destruct (run_in_sentence_order mt (Hall mt Hin)) as [-> _].
    apply Nat.leb_le. assumption.
Qed.

Lemma extraction_disjoint : pairwise_disjoint (kept_spans tokens ms).
Proof. apply sorted_pairwise_disjoint. apply kept_spans_shape. Qed.

Lemma extraction_order_kept :
  order_kept tokens (kept_spans tokens ms)
    (extract_phrases pat tokens pos_tags).
Proof.
  destruct kept_spans_shape as [Hkept Hsorted].
  rewrite extract_phrases_of_spans.
  split; [apply length_map|].
  split; [intros i; apply nth_error_map|].
  split.
  - intros i j m1 m2 Hij Hi Hj.
    pose proof (sorted_nth Hsorted Hij Hi Hj) as Hb. unfold before in Hb.
    rewrite Forall_forall in Hkept.
    destruct (Hkept m1 (nth_error_In _ _ Hi)) as [Hrun _].
    apply run_form_bounds in Hrun. lia.
  - eapply Forall_impl; [|exact Hkept]. simpl.
    intros mt [Hrun _]. apply run_in_sentence_order. assumption.
Qed.

End Extraction.

(* ================================================================= *)
(** ** The two classifiers *)

(** A classifier that looks the tag up in two disjoint tables. *)
Lemma table_classifies (anonymize : str -> str) (cA cN cO : N)
    (adjectives nouns : list str) :
  cA <> cN -> cO <> cA -> cO <> cN ->
  (forall pos, In pos adjectives -> ~ In pos nouns) ->
  (forall pos, anonymize pos
               = if contains adjectives pos then [cA]
                 else if contains nouns pos then [cN] else [cO]) ->
  classifies anonymize cA cN cO adjectives nouns.
Proof.
  intros HAN HOA HON Hdisj Hanon.
  unfold classifies, symbol_of_letter, symbol_of_char.
  rewrite !N.eqb_refl.
  rewrite (proj2 (N.eqb_neq cN cA)) by congruence.
  rewrite (proj2 (N.eqb_neq cO cA)), (proj2 (N.eqb_neq cO cN)) by assumption.
  do 3 (split; [reflexivity|]).
  intros pos. rewrite Hanon.
  destruct (contains adjectives pos) eqn:EA.
  - apply contains_In in EA. pose proof (Hdisj pos EA).
    (split; [|split]); split;
      first [tauto | intros _; reflexivity | intros [= ?]; congruence].
  - apply contains_not_In in EA.
    destruct (contains nouns pos) eqn:EN.
    + apply contains_In in EN.
      (split; [|split]); split;
      first [tauto | intros _; reflexivity | intros [= ?]; congruence].
    + apply contains_not_In in EN.
      (split; [|split]); split;
      first [tauto | intros _; reflexivity | intros [= ?]; congruence].
Qed.

Module EnglishFacts.

Import StanfordCoreNlpTokenizer.

Lemma en_anonymize_table (pos : str) :
  _anonymize_pos pos
  = if contains English.adjectives pos then lit "J"
    else if contains English.nouns pos then lit "N" else lit "O".
Proof.
  unfold _anonymize_pos, contains, English.adjectives, English.nouns. simpl existsb.
  destruct (str_eqb pos (lit "JJ")), (str_eqb pos (lit "JJR")),
    (str_eqb pos (lit "JJS")), (str_eqb pos (lit "NN")),
    (str_eqb pos (lit "NNS")), (str_eqb pos (lit "NNP")),
    (str_eqb pos (lit "NNPS")); reflexivity.
Qed.

Lemma en_anonymize_letter (pos : str) :
  _anonymize_pos pos = [hd 0%N (_anonymize_pos pos)].
Proof.
  rewrite en_anonymize_table.
  destruct (contains English.adjectives pos), (contains English.nouns pos); reflexivity.
Qed.

Lemma en_letters_differ : English.cJ <> English.cN.
Proof. discriminate. Qed.

Lemma en_tables_disjoint (pos : str) : In pos English.adjectives -> ~ In pos English.nouns.
Proof.
  intros HA HN. apply contains_In in HN.
  simpl in HA. decompose [or] HA; subst; try discriminate; contradiction.
Qed.

Lemma en_tokenize_unfold self sentence pos_filter :
  tokenize self sentence pos_filter
  = (filter_tokens (English.tokens_of self sentence) pos_filter,
     extract_phrases pattern (English.tokens_of self sentence)
       (English.pos_tags_of (English.tokens_of self sentence))).
Proof. reflexivity. Qed.

End EnglishFacts.

Module JapaneseFacts.

Import SudachiTokenizer.

Lemma ja_anonymize_table (pos : str) :
  _anonymize_pos pos
  = if contains Japanese.adjectives pos then [c_kei]
    else if contains Japanese.nouns pos then [c_mei] else [c_ta].
Proof.
  unfold _anonymize_pos, contains. simpl existsb.
  destruct (str_eqb pos keiyoushi), (str_eqb pos meishi); reflexivity.
Qed.

Lemma ja_anonymize_letter (pos : str) :
  _anonymize_pos pos = [hd 0%N (_anonymize_pos pos)].
Proof.
  unfold _anonymize_pos.
  destruct (str_eqb pos keiyoushi), (str_eqb pos meishi); reflexivity.
Qed.

Lemma ja_letters_differ : c_kei <> c_mei.
Proof. discriminate. Qed.

Lemma ja_tables_disjoint (pos : str) : In pos Japanese.adjectives -> ~ In pos Japanese.nouns.
Proof.
  intros HA HN. apply contains_In in HN.
  simpl in HA. decompose [or] HA; subst; try discriminate; contradiction.
Qed.

Lemma ja_tokenize_unfold self sentence pos_filter :
  tokenize self sentence pos_filter
  = (try tokens <- Japanese.tokens_of self sentence ;;
     ret (filter_tokens tokens pos_filter,
          extract_phrases pattern tokens (Japanese.pos_tags_of tokens))).
Proof.
  unfold tokenize, Japanese.tokens_of.
  destruct (get_sudachi_mode self) as [e|mode]; reflexivity.
Qed.

Lemma ja_tokenize_returns self sentence pos_filter tokens :
  Japanese.tokens_of self sentence = inr tokens ->
  tokenize self sentence pos_filter
  = inr (filter_tokens tokens pos_filter,
         extract_phrases pattern tokens (Japanese.pos_tags_of tokens)).
Proof. intros H. rewrite ja_tokenize_unfold, H. reflexivity. Qed.

End JapaneseFacts.

(* ================================================================= *)
(** ** The token filter *)

Lemma filter_tokens_filtered_by (tokens : list (str * str))
    (pos_filter : list str) :
  filtered_by pos_filter tokens (filter_tokens tokens pos_filter).
Proof.
  unfold filter_tokens.
  induction tokens as [|[text tag] tokens IH]; simpl; [constructor|].
  destruct (contains pos_filter tag) eqn:E; simpl.
  - apply fb_keep; [apply contains_In|]; assumption.
  - apply fb_omit; [apply contains_not_In|]; assumption.
Qed.

Lemma filtered_by_unique (pos_filter : list str) (tokens : list (str * str))
    (out : list str) :
  filtered_by pos_filter tokens out -> out = filter_tokens tokens pos_filter.
Proof.
  unfold filter_tokens.
  induction 1 as [|text tag tokens out Hin _ IH|text tag tokens out Hout _ IH];
    simpl.
  - reflexivity.
  - apply contains_In in Hin. rewrite Hin. simpl. f_equal. assumption.
  - apply contains_not_In in Hout. rewrite Hout. assumption.
Qed.

(* ================================================================= *)
(** ** The Japanese adapter *)

(** The test of the comprehension, as a proposition. *)
Lemma discarded_test (text : str) :
  Japanese.is_discarded text = true <-> Japanese.discarded text.
Proof.
  unfold Japanese.discarded, Japanese.is_discarded.
  rewrite orb_true_iff, contains_In, str_eqb_eq. simpl.
  split; intros H; decompose [or] H; auto; contradiction.
Qed.

(** What the comprehension returns holds no discarded text, and its texts
    are the surfaces of the other morphemes, in order. *)
Lemma morph_tokens_kept (morphs : list Sudachi.Morpheme) :
  forall tokens, SudachiTokenizer.morph_tokens morphs = inr tokens ->
    Forall (fun token => ~ Japanese.discarded (fst token)) tokens /\
    map fst tokens
    = filter (fun text => negb (Japanese.is_discarded text))
        (map Sudachi.surface morphs).
Proof.
  induction morphs as [|morph morphs IH]; intros tokens;
    cbn [SudachiTokenizer.morph_tokens filter map].
  - intros [= <-]. split; [constructor | reflexivity].
  - fold (Japanese.is_discarded (Sudachi.surface morph)).
    destruct (Japanese.is_discarded (Sudachi.surface morph)) eqn:E;
      cbn [negb].
    + apply IH.
    + destruct (Sudachi.part_of_speech morph) as [|pos rest];
        cbn [index0 bind raise ret]; [discriminate|].
      destruct (SudachiTokenizer.morph_tokens morphs) as [e|tokens'];
        cbn [bind ret]; [discriminate|].
      intros [= <-]. destruct (IH tokens' eq_refl) as [H1 H2].
      split; [|cbn [map fst]; f_equal; assumption].
      constructor; [|assumption]. cbn [fst].
      intros Hd. apply discarded_test in Hd. congruence.
Qed.

(** The comprehension returns when every morpheme it keeps has a part of
    speech. *)
Lemma morph_tokens_returns (morphs : list Sudachi.Morpheme) :
  Forall (fun morph => ~ Japanese.discarded (Sudachi.surface morph) ->
                       Sudachi.part_of_speech morph <> []) morphs ->
  exists tokens, SudachiTokenizer.morph_tokens morphs = inr tokens.
Proof.
  induction 1 as [|morph morphs Hpos _ [tokens IH]];
    cbn [SudachiTokenizer.morph_tokens].
  - exists []. reflexivity.
  - fold (Japanese.is_discarded (Sudachi.surface morph)).
    destruct (Japanese.is_discarded (Sudachi.surface morph)) eqn:E;
      cbn [negb]; [exists tokens; assumption|].
    destruct (Sudachi.part_of_speech morph) as [|pos rest].
    + exfalso. apply Hpos; [|reflexivity].
      intros Hd. apply discarded_test in Hd. congruence.
    + cbn [index0 bind ret]. rewrite IH. cbn [bind ret].
      eexists. reflexivity.
Qed.

(* ================================================================= *)
(** ** The extraction of the two tokenizers *)

Lemma en_short_matches (tokens : list (str * str)) :
  short_matches_returned (English.symbols tokens) tokens
    (English.phrase_spans tokens)
    (extract_phrases StanfordCoreNlpTokenizer.pattern tokens
       (English.pos_tags_of tokens)).
Proof.
  exact (extraction_short_matches English.cJ English.cN
           EnglishFacts.en_letters_differ _ _
           EnglishFacts.en_anonymize_letter tokens).
Qed.

Lemma ja_short_matches (tokens : list (str * str)) :
  short_matches_returned (Japanese.symbols tokens) tokens
    (Japanese.phrase_spans tokens)
    (extract_phrases SudachiTokenizer.pattern tokens
       (Japanese.pos_tags_of tokens)).
Proof.
  exact (extraction_short_matches _ _ JapaneseFacts.ja_letters_differ _ _
           JapaneseFacts.ja_anonymize_letter tokens).
Qed.

Lemma en_length_limited (tokens : list (str * str)) :
  length_limited tokens (English.matches tokens) (English.phrase_spans tokens)
    (extract_phrases StanfordCoreNlpTokenizer.pattern tokens
       (English.pos_tags_of tokens)).
Proof.
  exact (extraction_length_limited English.cJ English.cN
           EnglishFacts.en_letters_differ _ _
           EnglishFacts.en_anonymize_letter tokens).
Qed.

Lemma ja_length_limited (tokens : list (str * str)) :
  length_limited tokens (Japanese.matches tokens)
    (Japanese.phrase_spans tokens)
    (extract_phrases SudachiTokenizer.pattern tokens
       (Japanese.pos_tags_of tokens)).
Proof.
  exact (extraction_length_limited _ _ JapaneseFacts.ja_letters_differ _ _
           JapaneseFacts.ja_anonymize_letter tokens).
Qed.

Lemma en_disjoint (tokens : list (str * str)) :
  pairwise_disjoint (English.phrase_spans tokens).
Proof.
  exact (extraction_disjoint English.cJ English.cN
           EnglishFacts.en_letters_differ _ _
           EnglishFacts.en_anonymize_letter tokens).
Qed.

Lemma ja_disjoint (tokens : list (str * str)) :
  pairwise_disjoint (Japanese.phrase_spans tokens).
Proof.
  exact (extraction_disjoint _ _ JapaneseFacts.ja_letters_differ _ _
           JapaneseFacts.ja_anonymize_letter tokens).
Qed.

Lemma en_order_kept (tokens : list (str * str)) :
  order_kept tokens (English.phrase_spans tokens)
    (extract_phrases StanfordCoreNlpTokenizer.pattern tokens
       (English.pos_tags_of tokens)).
Proof.
  exact (extraction_order_kept English.cJ English.cN
           EnglishFacts.en_letters_differ _ _
           EnglishFacts.en_anonymize_letter tokens).
Qed.

Lemma ja_order_kept (tokens : list (str * str)) :
  order_kept tokens (Japanese.phrase_spans tokens)
    (extract_phrases SudachiTokenizer.pattern tokens
       (Japanese.pos_tags_of tokens)).
Proof.
  exact (extraction_order_kept _ _ JapaneseFacts.ja_letters_differ _ _
           JapaneseFacts.ja_anonymize_letter tokens).
Qed.

Lemma en_matches_leftmost_greedy (tokens : list (str * str)) :
  leftmost_greedy (English.symbols tokens) 0 (English.matches tokens).
Proof.
  exact (matches_leftmost_greedy English.cJ English.cN
           EnglishFacts.en_letters_differ _ _
           EnglishFacts.en_anonymize_letter tokens).
Qed.

(* ================================================================= *)
(** ** The letters of the classifiers stand for the classes of the table *)

Lemma table_classify (anonymize : str -> str) (cA cN cO : N)
    (adjectives nouns : list str) :
  cA <> cN -> cO <> cA -> cO <> cN ->
  (forall pos, anonymize pos
               = if contains adjectives pos then [cA]
                 else if contains nouns pos then [cN] else [cO]) ->
  forall pos,
    symbol_of_letter cA cN (anonymize pos) = classify adjectives nouns pos.
Proof.
  intros HAN HOA HON Hanon pos. rewrite Hanon.
  unfold classify, symbol_of_letter, symbol_of_char.
  destruct (contains adjectives pos); [rewrite N.eqb_refl; reflexivity|].
  destruct (contains nouns pos).
  - rewrite (proj2 (N.eqb_neq cN cA)) by congruence.
    rewrite N.eqb_refl. reflexivity.
  - rewrite (proj2 (N.eqb_neq cO cA)), (proj2 (N.eqb_neq cO cN))
      by assumption.
    reflexivity.
Qed.

(** The string the English pattern runs on, read character by character,
    is the list of the classes of the tokens' tags. *)
Lemma en_joined_classes (tokens : list (str * str)) :
  map (symbol_of_char English.cJ English.cN)
    (join [] (English.pos_tags_of tokens))
  = map (fun token => classify English.adjectives English.nouns (snd token))
      tokens.
Proof.
  unfold English.pos_tags_of.
  rewrite <- (symbols_of_joined English.cJ English.cN _ _
                EnglishFacts.en_anonymize_letter tokens).
  rewrite map_map. apply map_ext. intros token.
  apply (table_classify _ _ _ (chr "O")); try discriminate.
  apply EnglishFacts.en_anonymize_table.
Qed.

Lemma ja_joined_classes (tokens : list (str * str)) :
  map (symbol_of_char SudachiTokenizer.c_kei SudachiTokenizer.c_mei)
    (join [] (Japanese.pos_tags_of tokens))
  = map (fun token =>
           classify Japanese.adjectives Japanese.nouns (snd token))
      tokens.
Proof.
  unfold Japanese.pos_tags_of.
  rewrite <- (symbols_of_joined SudachiTokenizer.c_kei SudachiTokenizer.c_mei
                _ _ JapaneseFacts.ja_anonymize_letter tokens).
  rewrite map_map. apply map_ext. intros token.
  apply (table_classify _ _ _ SudachiTokenizer.c_ta); try discriminate.
  apply JapaneseFacts.ja_anonymize_table.
Qed.

(* ================================================================= *)
(** ** The English [tokenize] on tuples of any length *)











(* ================================================================= *)
(** ** The matcher and the tokenizers on concrete sentences *)

(** A repetition gives characters back when what follows needs them. *)
Example star_backtracks :
  match_at (Cat (Star (Chr (chr "J"))) (Chr (chr "J"))) (lit "JJJ") 0
  = Some 3.
Proof. reflexivity. Qed.

(** Adjectives without a noun behind them start no match; a noun directly
    after a match starts the next one only through an adjective. *)
Example finditer_runs :
  finditer StanfordCoreNlpTokenizer.pattern (lit "JJONJNNJJOJNJ")
  = [mkMatch 3 4; mkMatch 4 7; mkMatch 10 12].
Proof. reflexivity. Qed.

Example quick_brown_fox_phrases :
  StanfordCoreNlpTokenizer.tokenize (English.tagger English.quick_brown_fox)
    [] StanfordCoreNlpTokenizer.default_pos_filter
  = ([lit "quick"; lit "brown"; lit "fox"], [lit "quick_brown_fox"]).
Proof. reflexivity. Qed.

Example empty_sentence :
  StanfordCoreNlpTokenizer.tokenize (English.tagger []) []
    StanfordCoreNlpTokenizer.default_pos_filter
  = ([], []).
Proof. reflexivity. Qed.

Example no_noun_no_phrase :
  StanfordCoreNlpTokenizer.tokenize
    (English.tagger [("quickly", "RB"); ("red", "JJ"); ("runs", "VBZ")]%string)
    [] StanfordCoreNlpTokenizer.default_pos_filter
  = ([lit "red"], []).
Proof. reflexivity. Qed.

(* ================================================================= *)
(** ** The claims *)

(** C3.  The tag classifier is a total function on tag strings.  The
    English one maps exactly JJ, JJR and JJS to the letter of Adjective,
    exactly NN, NNS, NNP and NNPS to the letter of Noun and every other
    string to the letter of Other; the Japanese one maps exactly 形容詞 to
    the letter of Adjective, exactly 名詞 to the letter of Noun and every
    other string to the letter of Other. *)
Theorem C3_tag_classifier :
  classifies StanfordCoreNlpTokenizer._anonymize_pos
    (chr "J") (chr "N") (chr "O") English.adjectives English.nouns /\
  classifies SudachiTokenizer._anonymize_pos
    SudachiTokenizer.c_kei SudachiTokenizer.c_mei SudachiTokenizer.c_ta
    Japanese.adjectives Japanese.nouns.
Proof.
  split.
  - apply table_classifies; try discriminate.
    + apply EnglishFacts.en_tables_disjoint.
    + apply EnglishFacts.en_anonymize_table.
  - apply table_classifies; try discriminate.
    + apply JapaneseFacts.ja_tables_disjoint.
    + apply JapaneseFacts.ja_anonymize_table.
Qed.

(** C6.  [tokenize] returns what the extraction gives on the tokens and
    the pos tags [[_anonymize_pos(token[1]) for token in tokens]].  These
    pos tags are as many as the tokens, and the one at index [i] is the
    letter of the tag of token [i]; the string the pattern runs on has one
    character per token and, read character by character, is the list of
    the classes (Adjective, Noun, Other) that the table of the language
    gives to the tags of the tokens, in order. *)
Theorem C6_alignment :
  (forall self sentence pos_filter,
     let tokens := English.tokens_of self sentence in
     let pos_tags := English.pos_tags_of tokens in
     StanfordCoreNlpTokenizer.tokenize self sentence pos_filter
     = (filter_tokens tokens pos_filter,
        extract_phrases StanfordCoreNlpTokenizer.pattern tokens pos_tags) /\
     aligned StanfordCoreNlpTokenizer._anonymize_pos tokens pos_tags /\
     map (symbol_of_char English.cJ English.cN) (join [] pos_tags)
     = map (fun token =>
              classify English.adjectives English.nouns (snd token))
         tokens) /\
  (forall self sentence pos_filter tokens,
     Japanese.tokens_of self sentence = inr tokens ->
     let pos_tags := Japanese.pos_tags_of tokens in
     SudachiTokenizer.tokenize self sentence pos_filter
     = inr (filter_tokens tokens pos_filter,
            extract_phrases SudachiTokenizer.pattern tokens pos_tags) /\
     aligned SudachiTokenizer._anonymize_pos tokens pos_tags /\
     map (symbol_of_char SudachiTokenizer.c_kei SudachiTokenizer.c_mei)
       (join [] pos_tags)
     = map (fun token =>
              classify Japanese.adjectives Japanese.nouns (snd token))
         tokens).
Proof.
  split.
  - intros self sentence pos_filter tokens pos_tags.
    split; [apply EnglishFacts.en_tokenize_unfold|]. split.
    + exact (pos_tags_aligned _ _ EnglishFacts.en_anonymize_letter tokens).
    + apply en_joined_classes.
  - intros self sentence pos_filter tokens Htokens pos_tags.
    split; [apply JapaneseFacts.ja_tokenize_returns; exact Htokens|]. split.
    + exact (pos_tags_aligned _ _ JapaneseFacts.ja_anonymize_letter tokens).
    + apply ja_joined_classes.
Qed.

(** C7.  The token list returned by [tokenize] holds the text of every
    token whose tag is in [pos_filter], in the order of the tokens, and
    omits exactly the others; it is the only list that does. *)
Theorem C7_token_filter :
  (forall self sentence pos_filter,
     let tokens := English.tokens_of self sentence in
     let out :=
       fst (StanfordCoreNlpTokenizer.tokenize self sentence pos_filter) in
     filtered_by pos_filter tokens out /\
     forall out', filtered_by pos_filter tokens out' -> out' = out) /\
  (forall self sentence pos_filter tokens,
     Japanese.tokens_of self sentence = inr tokens ->
     exists out phrases,
       SudachiTokenizer.tokenize self sentence pos_filter
       = inr (out, phrases) /\
       filtered_by pos_filter tokens out /\
       forall out', filtered_by pos_filter tokens out' -> out' = out).
Proof.
  split.
  - intros self sentence pos_filter tokens out. subst out.
    rewrite EnglishFacts.en_tokenize_unfold. cbn [fst]. split.
    + apply filter_tokens_filtered_by.
    + apply filtered_by_unique.
  - intros self sentence pos_filter tokens Htokens.
    eexists. eexists. split; [|split].
    + apply JapaneseFacts.ja_tokenize_returns. exact Htokens.
    + apply filter_tokens_filtered_by.
    + apply filtered_by_unique.
Qed.

(** C1, as stated, fails on the over-long scenario of the specification:
    the adjectives a, b, c, d and the noun e form the one leftmost greedy
    match, of five tokens, and no phrase is returned for it. *)
Lemma C1_counterexample :
  let tokens := English.tuples English.over_long in
  let self := English.tagger English.over_long in
  English.tokens_of self [] = tokens /\
  leftmost_greedy (English.symbols tokens) 0 [mkMatch 0 5] /\
  English.phrase_spans tokens = [] /\
  snd (StanfordCoreNlpTokenizer.tokenize self []
         StanfordCoreNlpTokenizer.default_pos_filter) = [] /\
  ~ all_matches_returned (English.symbols tokens) (English.phrase_spans tokens).
Proof.
  intros tokens self.
  assert (Hlg : leftmost_greedy (English.symbols tokens) 0 [mkMatch 0 5]).
  { assert (E : English.matches tokens = [mkMatch 0 5])
      by (vm_compute; reflexivity).
    rewrite <- E. apply en_matches_leftmost_greedy. }
  assert (Hspans : English.phrase_spans tokens = [])
    by (vm_compute; reflexivity).
  split; [reflexivity|].
  split; [exact Hlg|].
  split; [exact Hspans|].
  split; [vm_compute; reflexivity|].
  intros Hall. specialize (Hall _ Hlg). rewrite Hspans in Hall.
  discriminate.
Qed.

(** C1 (amended).  The spans of the returned phrases are exactly the
    leftmost, non-overlapping, greedy matches of (adjectives)*(nouns)+ over
    the classified symbol sequence that have at most three tokens; every
    match contains a noun; if no token classifies as Noun, or if there is
    no token, the phrase list is empty. *)
Theorem C1_short_leftmost_greedy_matches :
  (forall self sentence pos_filter,
     let tokens := English.tokens_of self sentence in
     short_matches_returned (English.symbols tokens) tokens
       (English.phrase_spans tokens)
       (snd (StanfordCoreNlpTokenizer.tokenize self sentence pos_filter))) /\
  (forall self sentence pos_filter tokens,
     Japanese.tokens_of self sentence = inr tokens ->
     exists out phrases,
       SudachiTokenizer.tokenize self sentence pos_filter
       = inr (out, phrases) /\
       short_matches_returned (Japanese.symbols tokens) tokens
         (Japanese.phrase_spans tokens) phrases).
Proof.
  split.
  - intros self sentence pos_filter tokens.
    rewrite EnglishFacts.en_tokenize_unfold. cbn [snd].
    apply en_short_matches.
  - intros self sentence pos_filter tokens Htokens.
    eexists. eexists. split.
    + apply JapaneseFacts.ja_tokenize_returns. exact Htokens.
    + apply ja_short_matches.
Qed.

(** The Japanese scenario of the specification, through C1. *)
Lemma C1_witness :
  Japanese.tokens_of Japanese.flower_tokenizer [] = inr Japanese.flower_tokens /\
  exists out phrases,
    SudachiTokenizer.tokenize Japanese.flower_tokenizer []
      SudachiTokenizer.default_pos_filter = inr (out, phrases) /\
    short_matches_returned (Japanese.symbols Japanese.flower_tokens)
      Japanese.flower_tokens (Japanese.phrase_spans Japanese.flower_tokens)
      phrases.
Proof.
  split; [reflexivity|].
  apply (proj2 C1_short_leftmost_greedy_matches). reflexivity.
Defined.

(** C2.  Every returned phrase holds at most three tokens; a match of more
    than three tokens is dropped whole: it is not among the returned spans
    and no returned span shares a position with it.  The over-long scenario
    has one match of five tokens and returns no phrase. *)
Theorem C2_length_filter :
  (forall self sentence pos_filter,
     let tokens := English.tokens_of self sentence in
     length_limited tokens (English.matches tokens)
       (English.phrase_spans tokens)
       (snd (StanfordCoreNlpTokenizer.tokenize self sentence pos_filter))) /\
  (forall self sentence pos_filter tokens,
     Japanese.tokens_of self sentence = inr tokens ->
     exists out phrases,
       SudachiTokenizer.tokenize self sentence pos_filter
       = inr (out, phrases) /\
       length_limited tokens (Japanese.matches tokens)
         (Japanese.phrase_spans tokens) phrases) /\
  (English.matches (English.tuples English.over_long) = [mkMatch 0 5] /\
   snd (StanfordCoreNlpTokenizer.tokenize (English.tagger English.over_long)
          [] StanfordCoreNlpTokenizer.default_pos_filter) = []).
Proof.
  split; [|split].
  - intros self sentence pos_filter tokens.
    rewrite EnglishFacts.en_tokenize_unfold. cbn [snd].
    apply en_length_limited.
  - intros self sentence pos_filter tokens Htokens.
    eexists. eexists. split.
    + apply JapaneseFacts.ja_tokenize_returns. exact Htokens.
    + apply ja_length_limited.
  - split; vm_compute; reflexivity.
Qed.

(** The Japanese scenario of the specification, through C2. *)
Lemma C2_witness :
  Japanese.tokens_of Japanese.flower_tokenizer [] = inr Japanese.flower_tokens /\
  exists out phrases,
    SudachiTokenizer.tokenize Japanese.flower_tokenizer []
      SudachiTokenizer.default_pos_filter = inr (out, phrases) /\
    length_limited Japanese.flower_tokens
      (Japanese.matches Japanese.flower_tokens)
      (Japanese.phrase_spans Japanese.flower_tokens) phrases.
Proof.
  split; [reflexivity|].
  apply (proj1 (proj2 C2_length_filter)). reflexivity.
Defined.

(** C4.  The returned phrases are those of the spans [phrase_spans], and
    no two of these spans, taken at different places of the list, share a
    token position. *)
Theorem C4_non_overlap :
  (forall self sentence pos_filter,
     let tokens := English.tokens_of self sentence in
     snd (StanfordCoreNlpTokenizer.tokenize self sentence pos_filter)
     = map (phrase_of tokens) (English.phrase_spans tokens) /\
     pairwise_disjoint (English.phrase_spans tokens)) /\
  (forall self sentence pos_filter tokens,
     Japanese.tokens_of self sentence = inr tokens ->
     exists out,
       SudachiTokenizer.tokenize self sentence pos_filter
       = inr (out, map (phrase_of tokens) (Japanese.phrase_spans tokens)) /\
       pairwise_disjoint (Japanese.phrase_spans tokens)).
Proof.
  split.
  - intros self sentence pos_filter tokens. split.
    + rewrite EnglishFacts.en_tokenize_unfold. cbn [snd].
      apply extract_phrases_of_spans.
    + apply en_disjoint.
  - intros self sentence pos_filter tokens Htokens.
    eexists. split.
    + rewrite (JapaneseFacts.ja_tokenize_returns _ _ _ _ Htokens).
      rewrite extract_phrases_of_spans. reflexivity.
    + apply ja_disjoint.
Qed.

(** Two phrases of one sentence: the spans of the two foxes. *)
Lemma C4_witness :
  let spans := English.phrase_spans (English.tuples English.fox_and_fox) in
  nth_error spans 0 = Some (mkMatch 0 1) /\
  nth_error spans 1 = Some (mkMatch 2 3) /\
  ~ overlap (mkMatch 0 1) (mkMatch 2 3).
Proof.
  intros spans.
  assert (H0 : nth_error spans 0 = Some (mkMatch 0 1)) by reflexivity.
  assert (H1 : nth_error spans 1 = Some (mkMatch 2 3)) by reflexivity.
  split; [exact H0|]. split; [exact H1|].
  refine (proj2 (proj1 C4_non_overlap (English.tagger English.fox_and_fox)
                   [] []) 0 1 _ _ _ H0 H1).
  discriminate.
Defined.

(** C5.  There is one phrase per returned span, in the order of the spans;
    the spans go from left to right; each phrase is the underscore join of
    the texts of the tokens at its positions, in the order of the sentence.
    Nothing is deduplicated: the sentence fox and fox returns fox twice. *)
Theorem C5_order_and_duplicates :
  (forall self sentence pos_filter,
     let tokens := English.tokens_of self sentence in
     order_kept tokens (English.phrase_spans tokens)
       (snd (StanfordCoreNlpTokenizer.tokenize self sentence pos_filter))) /\
  (forall self sentence pos_filter tokens,
     Japanese.tokens_of self sentence = inr tokens ->
     exists out phrases,
       SudachiTokenizer.tokenize self sentence pos_filter
       = inr (out, phrases) /\
       order_kept tokens (Japanese.phrase_spans tokens) phrases) /\
  (English.phrase_spans (English.tuples English.fox_and_fox)
   = [mkMatch 0 1; mkMatch 2 3] /\
   snd (StanfordCoreNlpTokenizer.tokenize (English.tagger English.fox_and_fox)
          [] StanfordCoreNlpTokenizer.default_pos_filter)
   = [lit "fox"; lit "fox"]).
Proof.
  split; [|split].
  - intros self sentence pos_filter tokens.
    rewrite EnglishFacts.en_tokenize_unfold. cbn [snd].
    apply en_order_kept.
  - intros self sentence pos_filter tokens Htokens.
    eexists. eexists. split.
    + apply JapaneseFacts.ja_tokenize_returns. exact Htokens.
    + apply ja_order_kept.
  - split; vm_compute; reflexivity.
Qed.

(** The Japanese scenario of the specification, through C5. *)
Lemma C5_witness :
  Japanese.tokens_of Japanese.flower_tokenizer [] = inr Japanese.flower_tokens /\
  exists out phrases,
    SudachiTokenizer.tokenize Japanese.flower_tokenizer []
      SudachiTokenizer.default_pos_filter = inr (out, phrases) /\
    order_kept Japanese.flower_tokens
      (Japanese.phrase_spans Japanese.flower_tokens) phrases.
Proof.
  split; [reflexivity|].
  apply (proj1 (proj2 C5_order_and_duplicates)). reflexivity.
Defined.

(** The Japanese scenario of the specification, through C6: the string
    形名 is matched, and its two characters stand for the classes of 形容詞
    and 名詞. *)
Lemma C6_witness :
  Japanese.tokens_of Japanese.flower_tokenizer [] = inr Japanese.flower_tokens /\
  SudachiTokenizer.tokenize Japanese.flower_tokenizer []
    SudachiTokenizer.default_pos_filter
  = inr (filter_tokens Japanese.flower_tokens
           SudachiTokenizer.default_pos_filter,
         extract_phrases SudachiTokenizer.pattern Japanese.flower_tokens
           (Japanese.pos_tags_of Japanese.flower_tokens)) /\
  aligned SudachiTokenizer._anonymize_pos Japanese.flower_tokens
    (Japanese.pos_tags_of Japanese.flower_tokens) /\
  map (symbol_of_char SudachiTokenizer.c_kei SudachiTokenizer.c_mei)
    (join [] (Japanese.pos_tags_of Japanese.flower_tokens))
  = [Adjective; Noun].
Proof.
  assert (Htokens : Japanese.tokens_of Japanese.flower_tokenizer []
                    = inr Japanese.flower_tokens) by reflexivity.
  destruct (proj2 C6_alignment Japanese.flower_tokenizer []
              SudachiTokenizer.default_pos_filter Japanese.flower_tokens
              Htokens) as (H1 & H2 & H3).
  split; [exact Htokens|]. split; [exact H1|]. split; [exact H2|].
  rewrite H3. reflexivity.
Defined.

(** The Japanese scenario of the specification, through C7. *)
Lemma C7_witness :
  Japanese.tokens_of Japanese.flower_tokenizer [] = inr Japanese.flower_tokens /\
  exists out phrases,
    SudachiTokenizer.tokenize Japanese.flower_tokenizer []
      SudachiTokenizer.default_pos_filter = inr (out, phrases) /\
    filtered_by SudachiTokenizer.default_pos_filter Japanese.flower_tokens out /\
    forall out',
      filtered_by SudachiTokenizer.default_pos_filter Japanese.flower_tokens
        out' -> out' = out.
Proof.
  split; [reflexivity|].
  apply (proj2 C7_token_filter). reflexivity.
Defined.

(** C8.  The tokens the Japanese adapter computes hold no token whose text
    is BOS, EOS or empty: their texts are the surfaces of the other
    morphemes of the analyzer output, in order, and it is from these tokens
    that [tokenize] classifies and matches.  The adapter returns whenever
    the split mode is set and every morpheme it keeps has a part of
    speech. *)
Theorem C8_sentinels_discarded :
  forall self sentence mode,
    SudachiTokenizer.sudachi_mode self = Some mode ->
    let morphs :=
      Sudachi.tokenize (SudachiTokenizer.tokenizer self) sentence mode in
    (forall tokens,
       Japanese.tokens_of self sentence = inr tokens ->
       Forall (fun token => ~ Japanese.discarded (fst token)) tokens /\
       map fst tokens
       = filter (fun text => negb (Japanese.is_discarded text))
           (map Sudachi.surface morphs) /\
       forall pos_filter,
         SudachiTokenizer.tokenize self sentence pos_filter
         = inr (filter_tokens tokens pos_filter,
                extract_phrases SudachiTokenizer.pattern tokens
                  (Japanese.pos_tags_of tokens))) /\
    (Forall (fun morph => ~ Japanese.discarded (Sudachi.surface morph) ->
                          Sudachi.part_of_speech morph <> []) morphs ->
     exists tokens, Japanese.tokens_of self sentence = inr tokens).
Proof.
  intros self sentence mode Hmode morphs.
  assert (E : Japanese.tokens_of self sentence
              = SudachiTokenizer.morph_tokens morphs).
  { unfold Japanese.tokens_of, SudachiTokenizer.get_sudachi_mode.
    rewrite Hmode. reflexivity. }
  split.
  - intros tokens Htokens. rewrite E in Htokens.
    destruct (morph_tokens_kept morphs tokens Htokens) as [H1 H2].
    split; [exact H1|]. split; [exact H2|].
    intros pos_filter. apply JapaneseFacts.ja_tokenize_returns.
    rewrite E. exact Htokens.
  - intros Hpos. rewrite E. apply morph_tokens_returns. exact Hpos.
Qed.

(** The scenario of the specification: between BOS and EOS, 美しい and 花
    are the tokens, and the phrase is 美しい_花. *)
Lemma C8_witness :
  SudachiTokenizer.sudachi_mode Japanese.flower_tokenizer
  = Some SplitMode.C /\
  Japanese.tokens_of Japanese.flower_tokenizer [] = inr Japanese.flower_tokens /\
  Forall (fun token => ~ Japanese.discarded (fst token))
    Japanese.flower_tokens /\
  SudachiTokenizer.tokenize Japanese.flower_tokenizer []
    SudachiTokenizer.default_pos_filter
  = inr ([Japanese.utsukushii; Japanese.hana],
         [Japanese.utsukushii ++ lit "_" ++ Japanese.hana]).
Proof.
  assert (Hmode : SudachiTokenizer.sudachi_mode Japanese.flower_tokenizer
                  = Some SplitMode.C) by reflexivity.
  assert (Htokens : Japanese.tokens_of Japanese.flower_tokenizer []
                    = inr Japanese.flower_tokens) by reflexivity.
  destruct (proj1 (C8_sentinels_discarded Japanese.flower_tokenizer []
                     SplitMode.C Hmode) _ Htokens) as (H1 & _ & H3).
  split; [exact Hmode|]. split; [exact Htokens|]. split; [exact H1|].
  rewrite H3. reflexivity.
Defined.




(** C10.  For a split mode other than A, B and C the constructor returns
    an instance whose [sudachi_mode] attribute is not set, and [tokenize]
    on that instance raises AttributeError for every sentence. *)
Theorem C10_unknown_split_mode :
  forall created mode,
    mode <> lit "A" -> mode <> lit "B" -> mode <> lit "C" ->
    let self := SudachiTokenizer.__init__ created mode in
    SudachiTokenizer.tokenizer self = created /\
    SudachiTokenizer.sudachi_mode self = None /\
    forall sentence pos_filter,
      SudachiTokenizer.tokenize self sentence pos_filter
      = inl AttributeError.
Proof.
  intros created mode HA HB HC self.
  assert (E : self = {| SudachiTokenizer.tokenizer := created;
                        SudachiTokenizer.sudachi_mode := None |}).
  { subst self. unfold SudachiTokenizer.__init__.
    apply str_eqb_neq in HA, HB, HC. rewrite HA, HB, HC. reflexivity. }
  rewrite E. split; [reflexivity|]. split; reflexivity.
Qed.

(** The split mode D. *)
Lemma C10_witness :
  let self :=
    SudachiTokenizer.__init__ (Japanese.analyzer Japanese.beautiful_flower)
      (lit "D") in
  SudachiTokenizer.sudachi_mode self = None /\
  SudachiTokenizer.tokenize self [] SudachiTokenizer.default_pos_filter
  = inl AttributeError.
Proof.
  intros self.
  destruct (C10_unknown_split_mode
              (Japanese.analyzer Japanese.beautiful_flower) (lit "D"))
    as (_ & H2 & H3); try discriminate.
  split; [exact H2 | apply H3].
Defined.

(* ================================================================= *)
(** ** Further properties: the Japanese adapter *)

(** The two outcomes of the comprehension of lines 108-110. *)
Lemma morph_tokens_cases (morphs : list Sudachi.Morpheme) :
  (SudachiTokenizer.morph_tokens morphs = inl IndexError /\
   Exists lacks_part_of_speech morphs) \/
  (SudachiTokenizer.morph_tokens morphs
   = inr (map morph_token (kept_morphs morphs)) /\
   Forall (fun morph => ~ Japanese.discarded (Sudachi.surface morph) ->
                        Sudachi.part_of_speech morph <> []) morphs).
Proof.
  induction morphs as [|morph morphs IH];
    cbn [SudachiTokenizer.morph_tokens kept_morphs filter].
  - right. split; [reflexivity | constructor].
  - fold (Japanese.is_discarded (Sudachi.surface morph)).
    fold (kept_morphs morphs).
    destruct (Japanese.is_discarded (Sudachi.surface morph)) eqn:E;
      cbn [negb].
    + apply discarded_test in E.
      destruct IH as [[H1 H2]|[H1 H2]]; [left | right]; split;
        try assumption.
      * apply Exists_cons_tl. assumption.
      * constructor; [tauto | assumption].
    + assert (Hkeep : ~ Japanese.discarded (Sudachi.surface morph))
        by (intros Hd; apply discarded_test in Hd; congruence).
      destruct (Sudachi.part_of_speech morph) as [|pos rest] eqn:Epos.
      * left. split; [reflexivity|].
        apply Exists_cons_hd. split; assumption.
      * cbn [index0 bind ret].
        destruct IH as [[H1 H2]|[H1 H2]]; rewrite H1; cbn [bind ret].
        -- left. split; [reflexivity | apply Exists_cons_tl; assumption].
        -- right. split.
           ++ cbn [map]. do 2 f_equal. unfold morph_token.
              rewrite Epos. reflexivity.
           ++ constructor; [congruence | assumption].
Qed.

Lemma lacking_excludes_complete (morphs : list Sudachi.Morpheme) :
  Exists lacks_part_of_speech morphs ->
  Forall (fun morph => ~ Japanese.discarded (Sudachi.surface morph) ->
                       Sudachi.part_of_speech morph <> []) morphs ->
  False.
Proof.
  intros HE HF. apply Exists_exists in HE. destruct HE as (m & Hin & H1 & H2).
  rewrite Forall_forall in HF. exact (HF m Hin H1 H2).
Qed.

Lemma tokens_of_with_mode (self : SudachiTokenizer.t) (sentence : str)
    (mode : SplitMode.t) :
  SudachiTokenizer.sudachi_mode self = Some mode ->
  Japanese.tokens_of self sentence
  = SudachiTokenizer.morph_tokens
      (Sudachi.tokenize (SudachiTokenizer.tokenizer self) sentence mode).
Proof.
  intros H. unfold Japanese.tokens_of, SudachiTokenizer.get_sudachi_mode.
  rewrite H. reflexivity.
Qed.

Lemma tokens_of_without_mode (self : SudachiTokenizer.t) (sentence : str) :
  SudachiTokenizer.sudachi_mode self = None ->
  Japanese.tokens_of self sentence = inl AttributeError.
Proof.
  intros H. unfold Japanese.tokens_of, SudachiTokenizer.get_sudachi_mode.
  rewrite H. reflexivity.
Qed.

(** [tokenize] fails exactly as the computation of its tokens does. *)
Lemma tokenize_fails_as_tokens (self : SudachiTokenizer.t) (sentence : str)
    (pos_filter : list str) (e : exn) :
  SudachiTokenizer.tokenize self sentence pos_filter = inl e
  <-> Japanese.tokens_of self sentence = inl e.
Proof.
  rewrite JapaneseFacts.ja_tokenize_unfold.
  destruct (Japanese.tokens_of self sentence) as [e'|tokens];
    unfold bind, ret.
  - split; intros [= ->]; reflexivity.
  - split; discriminate.
Qed.

(** X1.  For the mode strings A, B and C the constructor sets the split
    mode of that name, and the result of [tokenize] on the instance is
    the one computed from what the analyzer returns for the sentence in
    exactly that mode; it is never AttributeError. *)
Theorem X1_known_split_mode :
  forall created name mode,
    In (name, mode) known_modes ->
    let self := SudachiTokenizer.__init__ created name in
    SudachiTokenizer.sudachi_mode self = Some mode /\
    forall sentence pos_filter,
      SudachiTokenizer.tokenize self sentence pos_filter
      = (try tokens <-
           SudachiTokenizer.morph_tokens
             (Sudachi.tokenize created sentence mode) ;;
         ret (filter_tokens tokens pos_filter,
              extract_phrases SudachiTokenizer.pattern tokens
                (Japanese.pos_tags_of tokens))) /\
      SudachiTokenizer.tokenize self sentence pos_filter
      <> inl AttributeError.
Proof.
  intros created name mode Hin self.
  assert (E : self = {| SudachiTokenizer.tokenizer := created;
                        SudachiTokenizer.sudachi_mode := Some mode |}).
  { subst self. simpl in Hin.
    destruct Hin as [H|[H|[H|[]]]]; injection H as <- <-; reflexivity. }
  rewrite E. split; [reflexivity|].
  intros sentence pos_filter.
  assert (Hresult :
            SudachiTokenizer.tokenize
              {| SudachiTokenizer.tokenizer := created;
                 SudachiTokenizer.sudachi_mode := Some mode |}
              sentence pos_filter
            = (try tokens <-
                 SudachiTokenizer.morph_tokens
                   (Sudachi.tokenize created sentence mode) ;;
               ret (filter_tokens tokens pos_filter,
                    extract_phrases SudachiTokenizer.pattern tokens
                      (Japanese.pos_tags_of tokens))))
    by reflexivity.
  split; [exact Hresult|].
  rewrite Hresult.
  destruct (morph_tokens_cases (Sudachi.tokenize created sentence mode))
    as [[H _]|[H _]]; rewrite H; discriminate.
Qed.

(** An analyzer that splits differently in mode A and in mode C: the
    result of [tokenize] follows the mode the instance was made with. *)
Lemma X1_witness :
  In (lit "A", SplitMode.A) known_modes /\
  In (lit "C", SplitMode.C) known_modes /\
  SudachiTokenizer.tokenize
    (SudachiTokenizer.__init__ mode_sensitive (lit "A")) []
    SudachiTokenizer.default_pos_filter
  = inr ([Japanese.utsukushii; Japanese.hana],
         [Japanese.utsukushii ++ lit "_" ++ Japanese.hana]) /\
  SudachiTokenizer.tokenize
    (SudachiTokenizer.__init__ mode_sensitive (lit "C")) []
    SudachiTokenizer.default_pos_filter
  = inr ([Japanese.hana], [Japanese.hana]).
Proof.
  assert (HA : In (lit "A", SplitMode.A) known_modes)
    by (left; reflexivity).
  assert (HC : In (lit "C", SplitMode.C) known_modes)
    by (right; right; left; reflexivity).
  split; [exact HA|]. split; [exact HC|]. split.
  - rewrite (proj1 (proj2 (X1_known_split_mode mode_sensitive _ _ HA) []
                      SudachiTokenizer.default_pos_filter)).
    reflexivity.
  - rewrite (proj1 (proj2 (X1_known_split_mode mode_sensitive _ _ HC) []
                      SudachiTokenizer.default_pos_filter)).
    reflexivity.
Defined.

(** X2.  The three outcomes of the Japanese [tokenize]: AttributeError
    exactly when the instance has no split mode; IndexError exactly when
    the mode is set and the analyzer returns a morpheme that is kept and
    has an empty part of speech; a result exactly when the mode is set and
    every kept morpheme has a part of speech.  A discarded morpheme is
    never asked for its part of speech. *)
Theorem X2_tokenize_outcomes :
  forall self sentence pos_filter,
    let morphs mode :=
      Sudachi.tokenize (SudachiTokenizer.tokenizer self) sentence mode in
    let outcome := SudachiTokenizer.tokenize self sentence pos_filter in
    (outcome = inl AttributeError
     <-> SudachiTokenizer.sudachi_mode self = None) /\
    (outcome = inl IndexError
     <-> exists mode, SudachiTokenizer.sudachi_mode self = Some mode /\
                      Exists lacks_part_of_speech (morphs mode)) /\
    ((exists returned, outcome = inr returned)
     <-> exists mode, SudachiTokenizer.sudachi_mode self = Some mode /\
           Forall (fun morph =>
                     ~ Japanese.discarded (Sudachi.surface morph) ->
                     Sudachi.part_of_speech morph <> []) (morphs mode)).
Proof.
  intros self sentence pos_filter morphs outcome. subst outcome.
  rewrite !tokenize_fails_as_tokens.
  rewrite JapaneseFacts.ja_tokenize_unfold.
  destruct (SudachiTokenizer.sudachi_mode self) as [mode|] eqn:Emode.
  - rewrite (tokens_of_with_mode _ sentence mode Emode).
    fold (morphs mode).
    destruct (morph_tokens_cases (morphs mode)) as [[H1 H2]|[H1 H2]];
      rewrite H1; cbn [bind ret].
    + split; [split; discriminate|]. split.
      * split; [intros _; exists mode; auto | reflexivity].
      * split; [intros [r Hr]; discriminate|].
        intros (mode' & [= <-] & HF). exfalso.
        exact (lacking_excludes_complete _ H2 HF).
    + split; [split; discriminate|]. split.
      * split; [discriminate|].
        intros (mode' & [= <-] & HE). exfalso.
        exact (lacking_excludes_complete _ HE H2).
      * split; [intros _; exists mode; auto | intros _; eexists; reflexivity].
  - rewrite (tokens_of_without_mode _ sentence Emode). cbn [bind].
    split; [tauto|]. split.
    + split; [discriminate | intros (mode & H & _); discriminate].
    + split; [intros [r Hr]; discriminate
             | intros (mode & H & _); discriminate].
Qed.

(** X3.  When the adapter returns, its tokens are, in the order of the
    analyzer output, one tuple per kept morpheme: the surface text and the
    first component of the part of speech. *)
Theorem X3_tokens_of_kept_morphemes :
  forall self sentence mode tokens,
    SudachiTokenizer.sudachi_mode self = Some mode ->
    Japanese.tokens_of self sentence = inr tokens ->
    let morphs :=
      Sudachi.tokenize (SudachiTokenizer.tokenizer self) sentence mode in
    tokens = map morph_token (kept_morphs morphs) /\
    Forall (fun morph => Sudachi.part_of_speech morph <> [])
      (kept_morphs morphs).
Proof.
  intros self sentence mode tokens Hmode Htokens morphs.
  rewrite (tokens_of_with_mode _ sentence mode Hmode) in Htokens.
  fold morphs in Htokens.
  destruct (morph_tokens_cases morphs) as [[H1 _]|[H1 H2]];
    rewrite H1 in Htokens; [discriminate|].
  injection Htokens as <-. split; [reflexivity|].
  apply Forall_forall. intros morph Hin. apply filter_In in Hin.
  destruct Hin as [Hin Hkeep]. rewrite Forall_forall in H2.
  apply (H2 morph Hin). intros Hd. apply discarded_test in Hd.
  rewrite Hd in Hkeep. discriminate.
Qed.

(** The flower scenario: two morphemes are kept, with their tags. *)
Lemma X3_witness :
  SudachiTokenizer.sudachi_mode Japanese.flower_tokenizer
  = Some SplitMode.C /\
  Japanese.tokens_of Japanese.flower_tokenizer [] = inr Japanese.flower_tokens /\
  Japanese.flower_tokens
  = map morph_token (kept_morphs Japanese.beautiful_flower).
Proof.
  assert (Hmode : SudachiTokenizer.sudachi_mode Japanese.flower_tokenizer
                  = Some SplitMode.C) by reflexivity.
  assert (Htokens : Japanese.tokens_of Japanese.flower_tokenizer []
                    = inr Japanese.flower_tokens) by reflexivity.
  split; [exact Hmode|]. split; [exact Htokens|].
  exact (proj1 (X3_tokens_of_kept_morphemes Japanese.flower_tokenizer []
                  SplitMode.C Japanese.flower_tokens Hmode Htokens)).
Defined.

(* ================================================================= *)
(** ** Further properties: the token filter and the classifier *)

Lemma contains_app (xs ys : list str) (x : str) :
  contains (xs ++ ys) x = contains xs x || contains ys x.
Proof. apply existsb_app. Qed.

(** A table classifier gives a content symbol exactly on the two tables. *)
Lemma table_content (anonymize : str -> str) (cA cN cO : N)
    (adjectives nouns : list str) :
  cA <> cN -> cO <> cA -> cO <> cN ->
  (forall pos, anonymize pos
               = if contains adjectives pos then [cA]
                 else if contains nouns pos then [cN] else [cO]) ->
  forall pos,
    is_content (symbol_of_letter cA cN (anonymize pos))
    = contains adjectives pos || contains nouns pos.
Proof.
  intros HAN HOA HON Hanon pos. rewrite Hanon.
  unfold symbol_of_letter, symbol_of_char.
  destruct (contains adjectives pos); [rewrite N.eqb_refl; reflexivity|].
  destruct (contains nouns pos); cbn [orb].
  - rewrite (proj2 (N.eqb_neq cN cA)) by congruence.
    rewrite N.eqb_refl. reflexivity.
  - rewrite (proj2 (N.eqb_neq cO cA)), (proj2 (N.eqb_neq cO cN))
      by assumption.
    reflexivity.
Qed.

Lemma en_default_filter_content (pos : str) :
  contains StanfordCoreNlpTokenizer.default_pos_filter pos
  = is_content (symbol_of_letter English.cJ English.cN
                  (StanfordCoreNlpTokenizer._anonymize_pos pos)).
Proof.
  rewrite (table_content StanfordCoreNlpTokenizer._anonymize_pos
             English.cJ English.cN (chr "O") English.adjectives English.nouns);
    try discriminate; [|apply EnglishFacts.en_anonymize_table].
  change StanfordCoreNlpTokenizer.default_pos_filter
    with (English.adjectives ++ English.nouns).
  apply contains_app.
Qed.

Lemma ja_default_filter_content (pos : str) :
  contains SudachiTokenizer.default_pos_filter pos
  = is_content (symbol_of_letter SudachiTokenizer.c_kei SudachiTokenizer.c_mei
                  (SudachiTokenizer._anonymize_pos pos)).
Proof.
  rewrite (table_content SudachiTokenizer._anonymize_pos
             SudachiTokenizer.c_kei SudachiTokenizer.c_mei
             SudachiTokenizer.c_ta Japanese.adjectives Japanese.nouns);
    try discriminate; [|apply JapaneseFacts.ja_anonymize_table].
  change SudachiTokenizer.default_pos_filter
    with (Japanese.nouns ++ Japanese.adjectives).
  rewrite contains_app. apply orb_comm.
Qed.

(** X4.  The default [pos_filter] of each class holds exactly the tags its
    classifier maps to Adjective or Noun: called with the default filter,
    [tokenize] returns the texts of exactly the tokens that are not
    classified Other, in order. *)
Theorem X4_default_filter_is_content :
  (forall self sentence,
     let tokens := English.tokens_of self sentence in
     fst (StanfordCoreNlpTokenizer.tokenize self sentence
            StanfordCoreNlpTokenizer.default_pos_filter)
     = map fst
         (filter (fun token =>
                    is_content
                      (symbol_of_letter English.cJ English.cN
                         (StanfordCoreNlpTokenizer._anonymize_pos
                            (snd token))))
            tokens)) /\
  (forall self sentence tokens,
     Japanese.tokens_of self sentence = inr tokens ->
     exists phrases,
       SudachiTokenizer.tokenize self sentence
         SudachiTokenizer.default_pos_filter
       = inr (map fst
                (filter (fun token =>
                           is_content
                             (symbol_of_letter SudachiTokenizer.c_kei
                                SudachiTokenizer.c_mei
                                (SudachiTokenizer._anonymize_pos
                                   (snd token))))
                   tokens),
              phrases)).
Proof.
  split.
  - intros self sentence tokens.
    rewrite EnglishFacts.en_tokenize_unfold. cbn [fst].
    unfold filter_tokens. f_equal. apply filter_ext.
    intros token. apply en_default_filter_content.
  - intros self sentence tokens Htokens. eexists.
    rewrite (JapaneseFacts.ja_tokenize_returns _ _ _ _ Htokens).
    unfold filter_tokens. do 3 f_equal. apply filter_ext.
    intros token. apply ja_default_filter_content.
Qed.

(** The flower scenario: both tokens are content words. *)
Lemma X4_witness :
  Japanese.tokens_of Japanese.flower_tokenizer [] = inr Japanese.flower_tokens /\
  exists phrases,
    SudachiTokenizer.tokenize Japanese.flower_tokenizer []
      SudachiTokenizer.default_pos_filter
    = inr ([Japanese.utsukushii; Japanese.hana], phrases).
Proof.
  split; [reflexivity|].
  exact (proj2 X4_default_filter_is_content Japanese.flower_tokenizer []
           Japanese.flower_tokens eq_refl).
Defined.

Lemma filter_tokens_same_members (tokens : list (str * str))
    (filter1 filter2 : list str) :
  (forall tag, In tag filter1 <-> In tag filter2) ->
  filter_tokens tokens filter1 = filter_tokens tokens filter2.
Proof.
  intros Hsame. unfold filter_tokens. f_equal. apply filter_ext.
  intros token. destruct (contains filter2 (snd token)) eqn:E.
  - apply contains_In. apply Hsame. apply contains_In. assumption.
  - apply contains_not_In. intros H. apply Hsame in H.
    apply contains_In in H. congruence.
Qed.

(** X5.  [pos_filter] is used as a set: two filters with the same members,
    whatever their order and repetitions, give the same result of
    [tokenize], tokens, phrases and errors alike. *)
Theorem X5_pos_filter_as_set :
  forall (english : StanfordCoreNlpTokenizer.t)
         (japanese : SudachiTokenizer.t) sentence filter1 filter2,
    (forall tag, In tag filter1 <-> In tag filter2) ->
    StanfordCoreNlpTokenizer.tokenize english sentence filter1
    = StanfordCoreNlpTokenizer.tokenize english sentence filter2 /\
    SudachiTokenizer.tokenize japanese sentence filter1
    = SudachiTokenizer.tokenize japanese sentence filter2.
Proof.
  intros english japanese sentence filter1 filter2 Hsame. split.
  - rewrite !EnglishFacts.en_tokenize_unfold.
    rewrite (filter_tokens_same_members _ _ _ Hsame). reflexivity.
  - rewrite !JapaneseFacts.ja_tokenize_unfold.
    destruct (Japanese.tokens_of japanese sentence) as [e|tokens];
      [reflexivity|].
    cbn [bind].
    rewrite (filter_tokens_same_members _ _ _ Hsame). reflexivity.
Qed.

(** NN, JJ, NN and JJ, NN filter alike. *)
Lemma X5_witness :
  StanfordCoreNlpTokenizer.tokenize (English.tagger English.quick_brown_fox)
    [] [lit "NN"; lit "JJ"; lit "NN"]
  = StanfordCoreNlpTokenizer.tokenize (English.tagger English.quick_brown_fox)
      [] [lit "JJ"; lit "NN"].
Proof.
  refine (proj1 (X5_pos_filter_as_set
                   (English.tagger English.quick_brown_fox)
                   Japanese.flower_tokenizer []
                   [lit "NN"; lit "JJ"; lit "NN"] [lit "JJ"; lit "NN"] _)).
  intros tag. simpl. tauto.
Defined.

(* ================================================================= *)
(** ** Further properties: the matches cannot be extended *)

Lemma run_form_extend (syms : list Symbol) (b e : nat) :
  run_form syms b e -> nth_error syms e = Some Noun ->
  run_form syms b (S e).
Proof.
  intros (a & H1 & H2 & H3 & H4) He. exists a.
  split; [assumption|]. split; [lia|]. split; [assumption|].
  intros i Hi1 Hi2. destruct (Nat.eq_dec i e) as [->|]; [assumption|].
  apply H4; lia.
Qed.

Lemma run_form_prepend (syms : list Symbol) (b e : nat) :
  run_form syms (S b) e -> nth_error syms b = Some Adjective ->
  run_form syms b e.
Proof.
  intros (a & H1 & H2 & H3 & H4) Hb. exists a.
  split; [lia|]. split; [assumption|]. split; [|assumption].
  intros i Hi1 Hi2. destruct (Nat.eq_dec i b) as [->|]; [assumption|].
  apply H3; lia.
Qed.

Lemma run_form_ends_in_noun (syms : list Symbol) (b e : nat) :
  run_form syms b e -> nth_error syms (e - 1) = Some Noun.
Proof. intros (a & H1 & H2 & _ & H4). apply H4; lia. Qed.

(** When no adjective stands right before the scan position, every match
    found from there on is a maximal run. *)
Lemma leftmost_greedy_maximal (syms : list Symbol) (pos : nat)
    (ms : list Match) :
  leftmost_greedy syms pos ms ->
  (0 < pos -> nth_error syms (pos - 1) <> Some Adjective) ->
  Forall (maximal_run syms) ms.
Proof.
  induction 1 as [pos Hno|pos b e ms Hpos Hleft Hrun Hmax Hrest IH];
    intros Hbefore; constructor.
  - split; [exact Hrun|]. cbn [start end_]. split.
    + intros He. pose proof (Hmax _ (run_form_extend _ _ _ Hrun He)). lia.
    + intros Hb Hadj.
      destruct (Nat.eq_dec b pos) as [->|Hne]; [exact (Hbefore Hb Hadj)|].
      apply (Hleft (b - 1)); [lia | lia|].
      exists e. apply run_form_prepend; [|assumption].
      replace (S (b - 1)) with b by lia. assumption.
  - apply IH. intros _.
    rewrite (run_form_ends_in_noun _ _ _ Hrun). discriminate.
Qed.

Lemma en_matches_maximal (tokens : list (str * str)) :
  Forall (maximal_run (English.symbols tokens)) (English.matches tokens).
Proof.
  apply (leftmost_greedy_maximal _ 0); [|lia].
  apply en_matches_leftmost_greedy.
Qed.

Lemma ja_matches_leftmost_greedy (tokens : list (str * str)) :
  leftmost_greedy (Japanese.symbols tokens) 0 (Japanese.matches tokens).
Proof.
  exact (matches_leftmost_greedy _ _ JapaneseFacts.ja_letters_differ _ _
           JapaneseFacts.ja_anonymize_letter tokens).
Qed.

Lemma ja_matches_maximal (tokens : list (str * str)) :
  Forall (maximal_run (Japanese.symbols tokens)) (Japanese.matches tokens).
Proof.
  apply (leftmost_greedy_maximal _ 0); [|lia].
  apply ja_matches_leftmost_greedy.
Qed.

Lemma kept_spans_incl (tokens : list (str * str)) (ms : list Match) :
  incl (kept_spans tokens ms) ms.
Proof. apply incl_filter. Qed.



(* ================================================================= *)
(** ** Further properties: phrases and the token list *)

(** The texts of a run pass every filter that lets content tags through. *)
Lemma span_texts_pass (cA cN : N) (anonymize : str -> str)
    (tokens : list (str * str)) (pos_filter : list str) (mt : Match)
    (text : str) :
  (forall tag,
     is_content (symbol_of_letter cA cN (anonymize tag)) = true ->
     contains pos_filter tag = true) ->
  run_form
    (map (symbol_of_letter cA cN)
       (map (fun token => anonymize (snd token)) tokens))
    (start mt) (end_ mt) ->
  In text (span_texts tokens mt) ->
  In text (filter_tokens tokens pos_filter).
Proof.
  intros Hpass Hrun Hin.
  destruct (run_form_bounds _ _ _ Hrun) as [Hlt Hlen].
  rewrite !length_map in Hlen.
  unfold span_texts in Hin. apply in_map_iff in Hin.
  destruct Hin as (token & <- & Hin).
  apply In_nth_error in Hin. destruct Hin as [k Hk].
  assert (Hkw : k < end_ mt - start mt).
  { rewrite <- (slice_length tokens (start mt) (end_ mt)) by lia.
    apply nth_error_Some. congruence. }
  rewrite slice_nth_error in Hk by lia.
  assert (Hsym :
            symbol_of_letter cA cN (anonymize (snd token)) = Adjective \/
            symbol_of_letter cA cN (anonymize (snd token)) = Noun).
  { destruct Hrun as (a & H1 & H2 & H3 & H4).
    destruct (Nat.lt_ge_cases (start mt + k) a) as [Hlo|Hhi].
    - left. specialize (H3 (start mt + k)).
      rewrite !nth_error_map, Hk in H3. cbn [option_map] in H3.
      assert (E : Some (symbol_of_letter cA cN (anonymize (snd token)))
                  = Some Adjective) by (apply H3; lia).
      injection E as E. exact E.
    - right. specialize (H4 (start mt + k)).
      rewrite !nth_error_map, Hk in H4. cbn [option_map] in H4.
      assert (E : Some (symbol_of_letter cA cN (anonymize (snd token)))
                  = Some Noun) by (apply H4; lia).
      injection E as E. exact E. }
  unfold filter_tokens. apply in_map. apply filter_In. split.
  - eapply nth_error_In. exact Hk.
  - apply Hpass. destruct Hsym as [E|E]; rewrite E; reflexivity.
Qed.

Lemma contains_incl (xs ys : list str) (x : str) :
  incl xs ys -> contains xs x = true -> contains ys x = true.
Proof.
  intros Hincl H. apply contains_In. apply Hincl. apply contains_In.
  assumption.
Qed.

Lemma en_span_is_run (tokens : list (str * str)) (mt : Match) :
  In mt (English.phrase_spans tokens) ->
  run_form (English.symbols tokens) (start mt) (end_ mt).
Proof.
  intros Hin. pose proof (en_matches_maximal tokens) as H.
  rewrite Forall_forall in H.
  apply (H mt). apply (kept_spans_incl tokens _ mt Hin).
Qed.

Lemma ja_span_is_run (tokens : list (str * str)) (mt : Match) :
  In mt (Japanese.phrase_spans tokens) ->
  run_form (Japanese.symbols tokens) (start mt) (end_ mt).
Proof.
  intros Hin. pose proof (ja_matches_maximal tokens) as H.
  rewrite Forall_forall in H.
  apply (H mt). apply (kept_spans_incl tokens _ mt Hin).
Qed.

(** X7.  Whenever [pos_filter] holds the default tags of the class, every
    token text of every returned phrase is also in the returned token
    list: the phrases are made of returned tokens only. *)
Theorem X7_phrase_tokens_are_returned :
  (forall self sentence pos_filter mt text,
     let tokens := English.tokens_of self sentence in
     incl StanfordCoreNlpTokenizer.default_pos_filter pos_filter ->
     In mt (English.phrase_spans tokens) ->
     In text (span_texts tokens mt) ->
     In text
       (fst (StanfordCoreNlpTokenizer.tokenize self sentence pos_filter))) /\
  (forall self sentence pos_filter tokens mt text,
     Japanese.tokens_of self sentence = inr tokens ->
     incl SudachiTokenizer.default_pos_filter pos_filter ->
     In mt (Japanese.phrase_spans tokens) ->
     In text (span_texts tokens mt) ->
     exists out phrases,
       SudachiTokenizer.tokenize self sentence pos_filter
       = inr (out, phrases) /\
       In text out).
Proof.
  split.
  - intros self sentence pos_filter mt text tokens Hincl Hmt Htext.
    rewrite EnglishFacts.en_tokenize_unfold. cbn [fst].
    apply (span_texts_pass English.cJ English.cN
             StanfordCoreNlpTokenizer._anonymize_pos tokens pos_filter mt);
      [|exact (en_span_is_run tokens mt Hmt)|exact Htext].
    intros tag Htag. apply (contains_incl _ _ _ Hincl).
    rewrite en_default_filter_content. exact Htag.
  - intros self sentence pos_filter tokens mt text Htokens Hincl Hmt Htext.
    eexists. eexists. split.
    + apply JapaneseFacts.ja_tokenize_returns. exact Htokens.
    + apply (span_texts_pass SudachiTokenizer.c_kei SudachiTokenizer.c_mei
               SudachiTokenizer._anonymize_pos tokens pos_filter mt);
        [|exact (ja_span_is_run tokens mt Hmt)|exact Htext].
      intros tag Htag. apply (contains_incl _ _ _ Hincl).
      rewrite ja_default_filter_content. exact Htag.
Qed.

(** The word brown of the phrase quick_brown_fox is a returned token. *)
Lemma X7_witness :
  let self := English.tagger English.quick_brown_fox in
  let tokens := English.tokens_of self [] in
  In (mkMatch 0 3) (English.phrase_spans tokens) /\
  In (lit "brown") (span_texts tokens (mkMatch 0 3)) /\
  In (lit "brown")
    (fst (StanfordCoreNlpTokenizer.tokenize self []
            StanfordCoreNlpTokenizer.default_pos_filter)).
Proof.
  intros self tokens.
  assert (H1 : In (mkMatch 0 3) (English.phrase_spans tokens))
    by (left; reflexivity).
  assert (H2 : In (lit "brown") (span_texts tokens (mkMatch 0 3)))
    by (right; left; reflexivity).
  split; [exact H1|]. split; [exact H2|].
  exact (proj1 X7_phrase_tokens_are_returned self []
           StanfordCoreNlpTokenizer.default_pos_filter (mkMatch 0 3)
           (lit "brown") (incl_refl _) H1 H2).
Defined.

(* ================================================================= *)
(** ** Further properties: a sentence that is one run *)

(** Adjectives followed by nouns and nothing else: the whole sentence is
    the one leftmost greedy match. *)
Lemma whole_run_leftmost_greedy (syms : list Symbol) (a b : nat) :
  0 < b -> syms = repeat Adjective a ++ repeat Noun b ->
  leftmost_greedy syms 0 [mkMatch 0 (a + b)].
Proof.
  intros Hb ->. apply lg_next.
  - lia.
  - intros p ? ?. lia.
  - exists a. split; [lia|]. split; [lia|]. split.
    + intros i _ Hi. rewrite nth_error_app1 by (rewrite repeat_length; lia).
      apply nth_error_repeat. assumption.
    + intros i Hi1 Hi2.
      rewrite nth_error_app2 by (rewrite repeat_length; lia).
      rewrite repeat_length. apply nth_error_repeat. lia.
  - intros e' He'. apply run_form_bounds in He'.
    rewrite length_app, !repeat_length in He'. lia.
  - apply lg_done. intros p Hp. apply no_match_beyond.
    rewrite length_app, !repeat_length. assumption.
Qed.

(** The phrases when the one match is the whole sentence. *)
Lemma whole_sentence_phrases (pattern : regex) (tokens : list (str * str))
    (tags : list str) :
  finditer pattern (join [] tags) = [mkMatch 0 (length tokens)] ->
  extract_phrases pattern tokens tags
  = if length tokens <=? 3 then [join (lit "_") (map fst tokens)] else [].
Proof.
  intros E. unfold extract_phrases. rewrite E. cbn [map].
  assert (Ewhole : span_texts tokens (mkMatch 0 (length tokens))
                   = map fst tokens).
  { unfold span_texts, slice. cbn [start end_ skipn].
    rewrite firstn_all. reflexivity. }
  rewrite Ewhole. cbn [filter]. rewrite length_map.
  destruct (length tokens <=? 3); reflexivity.
Qed.

(** X8.  When the classified sentence is adjectives followed by at least
    one noun and nothing else, [tokenize] returns the whole sentence as
    its one phrase if it has at most three tokens, and no phrase at all if
    it has more: a long run is not cut into shorter phrases. *)
Theorem X8_one_run_sentence :
  (forall self sentence pos_filter a b,
     let tokens := English.tokens_of self sentence in
     0 < b ->
     English.symbols tokens = repeat Adjective a ++ repeat Noun b ->
     snd (StanfordCoreNlpTokenizer.tokenize self sentence pos_filter)
     = if a + b <=? 3 then [join (lit "_") (map fst tokens)] else []) /\
  (forall self sentence pos_filter tokens a b,
     Japanese.tokens_of self sentence = inr tokens ->
     0 < b ->
     Japanese.symbols tokens = repeat Adjective a ++ repeat Noun b ->
     exists out,
       SudachiTokenizer.tokenize self sentence pos_filter
       = inr (out,
              if a + b <=? 3 then [join (lit "_") (map fst tokens)] else [])).
Proof.
  split.
  - intros self sentence pos_filter a b tokens Hb Hsyms.
    assert (Hlen : length tokens = a + b).
    { rewrite <- (length_map (fun token =>
                    StanfordCoreNlpTokenizer._anonymize_pos (snd token))).
      rewrite <- (length_map (symbol_of_letter English.cJ English.cN)).
      fold (English.pos_tags_of tokens). fold (English.symbols tokens).
      rewrite Hsyms, length_app, !repeat_length. reflexivity. }
    rewrite EnglishFacts.en_tokenize_unfold. cbn [snd].
    fold tokens. rewrite <- Hlen. apply whole_sentence_phrases.
    rewrite Hlen.
    exact (leftmost_greedy_unique _ (en_matches_leftmost_greedy tokens)
             (whole_run_leftmost_greedy _ a b Hb Hsyms)).
  - intros self sentence pos_filter tokens a b Htokens Hb Hsyms.
    assert (Hlen : length tokens = a + b).
    { rewrite <- (length_map (fun token =>
                    SudachiTokenizer._anonymize_pos (snd token))).
      rewrite <- (length_map (symbol_of_letter SudachiTokenizer.c_kei
                                SudachiTokenizer.c_mei)).
      fold (Japanese.pos_tags_of tokens). fold (Japanese.symbols tokens).
      rewrite Hsyms, length_app, !repeat_length. reflexivity. }
    eexists.
    rewrite (JapaneseFacts.ja_tokenize_returns _ _ _ _ Htokens).
    do 2 f_equal. rewrite <- Hlen. apply whole_sentence_phrases.
    rewrite Hlen.
    exact (leftmost_greedy_unique _ (ja_matches_leftmost_greedy tokens)
             (whole_run_leftmost_greedy _ a b Hb Hsyms)).
Qed.

(** Four adjectives and a noun: no phrase. *)
Lemma X8_witness :
  let self := English.tagger English.over_long in
  0 < 1 /\
  English.symbols (English.tokens_of self [])
  = repeat Adjective 4 ++ repeat Noun 1 /\
  snd (StanfordCoreNlpTokenizer.tokenize self []
         StanfordCoreNlpTokenizer.default_pos_filter) = [].
Proof.
  intros self.
  assert (Hb : 0 < 1) by lia.
  assert (Hsyms : English.symbols (English.tokens_of self [])
                  = repeat Adjective 4 ++ repeat Noun 1) by reflexivity.
  split; [exact Hb|]. split; [exact Hsyms|].
  exact (proj1 X8_one_run_sentence self []
           StanfordCoreNlpTokenizer.default_pos_filter 4 1 Hb Hsyms).
Defined.

(* ================================================================= *)
(** ** Further properties: no more phrases than nouns *)

Lemma filter_no_longer {A : Type} (f : A -> bool) (l : list A) :
  length (filter f l) <= length l.
Proof.
  induction l as [|x l IH]; simpl; [lia|].
  destruct (f x); simpl; lia.
Qed.

(** A noun between two scan positions is counted from the first and not
    from the second. *)
Lemma noun_between (syms : list Symbol) (pos a e : nat) :
  pos <= a -> a < e -> nth_error syms a = Some Noun ->
  S (length (filter is_noun (skipn e syms)))
  <= length (filter is_noun (skipn pos syms)).
Proof.
  intros H1 H2 Ha.
  rewrite <- (firstn_skipn (e - pos) (skipn pos syms)).
  rewrite skipn_skipn. replace (e - pos + pos) with e by lia.
  rewrite filter_app, length_app.
  assert (Hin : In Noun (filter is_noun (firstn (e - pos) (skipn pos syms)))).
  { apply filter_In. split; [|reflexivity].
    apply (nth_error_In _ (a - pos)).
    rewrite nth_error_firstn.
    destruct (Nat.ltb_spec (a - pos) (e - pos)); [|lia].
    rewrite nth_error_skipn. replace (pos + (a - pos)) with a by lia.
    assumption. }
  destruct (filter is_noun (firstn (e - pos) (skipn pos syms)));
    [contradiction | simpl; lia].
Qed.

Lemma leftmost_greedy_count (syms : list Symbol) (pos : nat)
    (ms : list Match) :
  leftmost_greedy syms pos ms ->
  length ms <= length (filter is_noun (skipn pos syms)).
Proof.
  induction 1 as [pos Hno|pos b e ms Hpos Hleft Hrun Hmax Hrest IH];
    simpl; [lia|].
  destruct Hrun as (a & H1 & H2 & _ & H4).
  pose proof (noun_between syms pos a e) as Hn.
  specialize (Hn ltac:(lia) H2 (H4 a (le_n _) H2)). lia.
Qed.

(** X9.  [tokenize] returns at most as many phrases as the sentence has
    tokens classified Noun; a sentence without nouns, whatever else it
    holds, gives none. *)
Theorem X9_phrases_bounded_by_nouns :
  (forall self sentence pos_filter,
     let tokens := English.tokens_of self sentence in
     length (snd (StanfordCoreNlpTokenizer.tokenize self sentence pos_filter))
     <= length (filter is_noun (English.symbols tokens))) /\
  (forall self sentence pos_filter tokens,
     Japanese.tokens_of self sentence = inr tokens ->
     exists out phrases,
       SudachiTokenizer.tokenize self sentence pos_filter
       = inr (out, phrases) /\
       length phrases <= length (filter is_noun (Japanese.symbols tokens))).
Proof.
  split.
  - intros self sentence pos_filter tokens.
    rewrite EnglishFacts.en_tokenize_unfold. cbn [snd]. fold tokens.
    rewrite extract_phrases_of_spans, length_map.
    pose proof (filter_no_longer
                  (fun mt => length (span_texts tokens mt) <=? 3)
                  (English.matches tokens)) as H1.
    pose proof (leftmost_greedy_count _ _ _
                  (en_matches_leftmost_greedy tokens)) as H2.
    cbn [skipn] in H2. unfold kept_spans.
    fold (English.pos_tags_of tokens). fold (English.matches tokens). lia.
  - intros self sentence pos_filter tokens Htokens.
    eexists. eexists. split.
    + apply JapaneseFacts.ja_tokenize_returns. exact Htokens.
    + rewrite extract_phrases_of_spans, length_map.
      pose proof (filter_no_longer
                    (fun mt => length (span_texts tokens mt) <=? 3)
                    (Japanese.matches tokens)) as H1.
      pose proof (leftmost_greedy_count _ _ _
                    (ja_matches_leftmost_greedy tokens)) as H2.
      cbn [skipn] in H2. unfold kept_spans.
      fold (Japanese.matches tokens). lia.
Qed.

(** The flower scenario: one noun, one phrase. *)
Lemma X9_witness :
  Japanese.tokens_of Japanese.flower_tokenizer [] = inr Japanese.flower_tokens /\
  exists out phrases,
    SudachiTokenizer.tokenize Japanese.flower_tokenizer []
      SudachiTokenizer.default_pos_filter = inr (out, phrases) /\
    length phrases
    <= length (filter is_noun (Japanese.symbols Japanese.flower_tokens)).
Proof.
  split; [reflexivity|].
  exact (proj2 X9_phrases_bounded_by_nouns Japanese.flower_tokenizer []
           SudachiTokenizer.default_pos_filter Japanese.flower_tokens
           eq_refl).
Defined.

(* ================================================================= *)
(** ** Further properties: what the result depends on *)

(** The comprehension sees only the morphemes it keeps. *)
Lemma morph_tokens_kept_only (morphs : list Sudachi.Morpheme) :
  SudachiTokenizer.morph_tokens morphs
  = SudachiTokenizer.morph_tokens (kept_morphs morphs).
Proof.
  induction morphs as [|morph morphs IH]; [reflexivity|].
  cbn [SudachiTokenizer.morph_tokens kept_morphs filter].
  fold (Japanese.is_discarded (Sudachi.surface morph)).
  fold (kept_morphs morphs).
  destruct (Japanese.is_discarded (Sudachi.surface morph)) eqn:E;
    cbn [negb]; [exact IH|].
  cbn [SudachiTokenizer.morph_tokens].
  fold (Japanese.is_discarded (Sudachi.surface morph)).
  rewrite E. cbn [negb]. rewrite IH. reflexivity.
Qed.

Lemma kept_morphs_all_discarded (morphs : list Sudachi.Morpheme) :
  Forall (fun morph => Japanese.discarded (Sudachi.surface morph)) morphs ->
  kept_morphs morphs = [].
Proof.
  induction 1 as [|morph morphs Hd _ IH]; [reflexivity|].
  cbn [kept_morphs filter]. apply discarded_test in Hd. rewrite Hd.
  exact IH.
Qed.

(** X10.  A sentence without tokens gives the empty token list and the
    empty phrase list, for every [pos_filter].  For the Japanese class
    this is the case whenever the mode is set and every morpheme of the
    analyzer output is a sentinel or empty, whatever its part of speech. *)
Theorem X10_no_tokens_no_output :
  (forall self sentence pos_filter,
     English.tokens_of self sentence = [] ->
     StanfordCoreNlpTokenizer.tokenize self sentence pos_filter = ([], [])) /\
  (forall self sentence pos_filter mode,
     SudachiTokenizer.sudachi_mode self = Some mode ->
     Forall (fun morph => Japanese.discarded (Sudachi.surface morph))
       (Sudachi.tokenize (SudachiTokenizer.tokenizer self) sentence mode) ->
     SudachiTokenizer.tokenize self sentence pos_filter = inr ([], [])).
Proof.
  split.
  - intros self sentence pos_filter Hempty.
    rewrite EnglishFacts.en_tokenize_unfold, Hempty. reflexivity.
  - intros self sentence pos_filter mode Hmode Hall.
    apply (JapaneseFacts.ja_tokenize_returns self sentence pos_filter []).
    rewrite (tokens_of_with_mode _ sentence mode Hmode).
    rewrite morph_tokens_kept_only.
    rewrite (kept_morphs_all_discarded _ Hall). reflexivity.
Qed.

(** Only the two sentinels, neither with a part of speech. *)
Lemma X10_witness :
  let sentinels :=
    [ {| Sudachi.surface := lit "BOS"; Sudachi.part_of_speech := [] |};
      {| Sudachi.surface := lit "EOS"; Sudachi.part_of_speech := [] |} ] in
  let self := SudachiTokenizer.__init__ (Japanese.analyzer sentinels) (lit "A") in
  SudachiTokenizer.tokenize self [] SudachiTokenizer.default_pos_filter
  = inr ([], []).
Proof.
  intros sentinels self.
  refine (proj2 X10_no_tokens_no_output self []
            SudachiTokenizer.default_pos_filter SplitMode.A eq_refl _).
  constructor; [left; reflexivity|].
  constructor; [right; left; reflexivity|].
  constructor.
Defined.

(** X11.  The Japanese [tokenize] depends on the analyzer output only
    through the morphemes it keeps: two instances with a split mode whose
    analyzer outputs agree once the sentinels and empty morphemes are
    removed give the same result, tokens, phrases and errors alike. *)
Theorem X11_sentinels_do_not_matter :
  forall self1 self2 sentence1 sentence2 pos_filter mode1 mode2,
    SudachiTokenizer.sudachi_mode self1 = Some mode1 ->
    SudachiTokenizer.sudachi_mode self2 = Some mode2 ->
    kept_morphs
      (Sudachi.tokenize (SudachiTokenizer.tokenizer self1) sentence1 mode1)
    = kept_morphs
        (Sudachi.tokenize (SudachiTokenizer.tokenizer self2) sentence2 mode2) ->
    SudachiTokenizer.tokenize self1 sentence1 pos_filter
    = SudachiTokenizer.tokenize self2 sentence2 pos_filter.
Proof.
  intros self1 self2 sentence1 sentence2 pos_filter mode1 mode2 H1 H2 Hkept.
  rewrite !JapaneseFacts.ja_tokenize_unfold.
  rewrite (tokens_of_with_mode _ sentence1 mode1 H1).
  rewrite (tokens_of_with_mode _ sentence2 mode2 H2).
  rewrite (morph_tokens_kept_only (Sudachi.tokenize _ sentence1 mode1)).
  rewrite (morph_tokens_kept_only (Sudachi.tokenize _ sentence2 mode2)).
  rewrite Hkept. reflexivity.
Qed.

(** The flower scenario with and without its sentinels. *)
Lemma X11_witness :
  let bare :=
    [ {| Sudachi.surface := Japanese.utsukushii;
         Sudachi.part_of_speech := [SudachiTokenizer.keiyoushi] |};
      {| Sudachi.surface := Japanese.hana;
         Sudachi.part_of_speech := [SudachiTokenizer.meishi] |} ] in
  let self := SudachiTokenizer.__init__ (Japanese.analyzer bare) (lit "A") in
  SudachiTokenizer.tokenize Japanese.flower_tokenizer []
    SudachiTokenizer.default_pos_filter
  = SudachiTokenizer.tokenize self [] SudachiTokenizer.default_pos_filter.
Proof.
  intros bare self.
  exact (X11_sentinels_do_not_matter Japanese.flower_tokenizer self [] []
           SudachiTokenizer.default_pos_filter SplitMode.C SplitMode.A
           eq_refl eq_refl eq_refl).
Defined.

Lemma span_texts_of_texts (tokens : list (str * str)) (mt : Match) :
  span_texts tokens mt = slice (map fst tokens) (start mt) (end_ mt).
Proof.
  unfold span_texts, slice. rewrite firstn_map, skipn_map. reflexivity.
Qed.

(** The phrases are made from the texts of the tokens and the matches. *)
Lemma extract_phrases_same (pattern1 pattern2 : regex)
    (tokens1 tokens2 : list (str * str)) (tags1 tags2 : list str) :
  map fst tokens1 = map fst tokens2 ->
  finditer pattern1 (join [] tags1) = finditer pattern2 (join [] tags2) ->
  extract_phrases pattern1 tokens1 tags1
  = extract_phrases pattern2 tokens2 tags2.
Proof.
  intros Htexts Hms. unfold extract_phrases. rewrite Hms.
  do 2 f_equal. apply map_ext. intros mt.
  rewrite !span_texts_of_texts, Htexts. reflexivity.
Qed.

(** X12.  The phrases depend on the tagged sentence only through the texts
    of its tokens and the class (Adjective, Noun, Other) of each tag: two
    sentences with the same texts and the same classified symbols give the
    same phrases, whichever tags of a class they carry and whatever the
    [pos_filter]. *)
Theorem X12_phrases_by_text_and_class :
  (forall self1 self2 sentence1 sentence2 filter1 filter2,
     let tokens1 := English.tokens_of self1 sentence1 in
     let tokens2 := English.tokens_of self2 sentence2 in
     map fst tokens1 = map fst tokens2 ->
     English.symbols tokens1 = English.symbols tokens2 ->
     snd (StanfordCoreNlpTokenizer.tokenize self1 sentence1 filter1)
     = snd (StanfordCoreNlpTokenizer.tokenize self2 sentence2 filter2)) /\
  (forall self1 self2 sentence1 sentence2 filter1 filter2 tokens1 tokens2,
     Japanese.tokens_of self1 sentence1 = inr tokens1 ->
     Japanese.tokens_of self2 sentence2 = inr tokens2 ->
     map fst tokens1 = map fst tokens2 ->
     Japanese.symbols tokens1 = Japanese.symbols tokens2 ->
     exists out1 out2 phrases,
       SudachiTokenizer.tokenize self1 sentence1 filter1
       = inr (out1, phrases) /\
       SudachiTokenizer.tokenize self2 sentence2 filter2
       = inr (out2, phrases)).
Proof.
  split.
  - intros self1 self2 sentence1 sentence2 filter1 filter2 tokens1 tokens2
      Htexts Hsyms.
    rewrite !EnglishFacts.en_tokenize_unfold. cbn [snd].
    apply extract_phrases_same; [exact Htexts|].
    apply (@leftmost_greedy_unique (English.symbols tokens1) 0).
    + apply en_matches_leftmost_greedy.
    + rewrite Hsyms. apply en_matches_leftmost_greedy.
  - intros self1 self2 sentence1 sentence2 filter1 filter2 tokens1 tokens2
      H1 H2 Htexts Hsyms.
    eexists. eexists. eexists. split.
    + apply JapaneseFacts.ja_tokenize_returns. exact H1.
    + rewrite (JapaneseFacts.ja_tokenize_returns _ _ filter2 _ H2).
      do 2 f_equal. symmetry.
      apply extract_phrases_same; [exact Htexts|].
      apply (@leftmost_greedy_unique (Japanese.symbols tokens1) 0).
      * apply ja_matches_leftmost_greedy.
      * rewrite Hsyms. apply ja_matches_leftmost_greedy.
Qed.

(** A red fox tagged NN and tagged NNP. *)
Lemma X12_witness :
  let self1 := English.tagger [("red", "JJ"); ("fox", "NN")]%string in
  let self2 := English.tagger [("red", "JJR"); ("fox", "NNP")]%string in
  snd (StanfordCoreNlpTokenizer.tokenize self1 []
         StanfordCoreNlpTokenizer.default_pos_filter)
  = snd (StanfordCoreNlpTokenizer.tokenize self2 [] []).
Proof.
  intros self1 self2.
  exact (proj1 X12_phrases_by_text_and_class self1 self2 [] []
           StanfordCoreNlpTokenizer.default_pos_filter [] eq_refl eq_refl).
Defined.
